(* ===== verification/_CoqProject ===== *)
-Q . S2P
Prelude.v
PyStr.v
FileSystem.v
VideoCapture.v
Sampler.v
Argparse.v
Scenarios.v
