(* ===== verification/Prelude.v ===== *)
(** * A verification of [getting_images_from_video.py]

    The repository (kirvader/AutomatedSoccerRecording) contains one
    program, [src/getting_images_from_video.py]: a command-line script
    that parses its arguments with [argparse] (lines 4-11), opens a
    video with OpenCV (line 13), reads it frame by frame while keeping
    a counter [frame_number] (lines 14-27), writes every frame whose
    number is a multiple of [--frame_rate] to [<folder>frame<k>.jpg]
    through [save_img] (lines 18-19, 25-26), prints a progress line
    every [100 * frame_rate] frames (lines 29-30) and a final summary
    (line 33).  The parts interact in that order: the namespace [args]
    parameterises the loop; the loop calls [cap.read()],
    [cv2.imwrite] and [print], which act on the world.

    ** Files, and which part of the program each models

    - [Prelude.v] (this file): the Python semantics the script relies
      on: unbounded ints with floor division and modulo that raise
      [ZeroDivisionError] on a zero divisor ([py_floordiv], [py_mod],
      notations [//] and [%%] in [py_scope]); the exceptions
      ([PyExc]); the state and exception monad [PyM] (an instance of
      stdpp's [MRet]/[MBind], written [x ← m; k]), whose [OutOfFuel]
      outcome is distinct from every Python exception; the hint
      databases and the list, option and integer lemmas the other
      files share.
    - [PyStr.v]: [str(int)] ([py_str_int], through the Standard
      Library's decimal strings) and the digit-by-digit reference
      printer [str_ref] it is proved equal to; [int(str)] as
      [type=int] calls it ([py_int]: whitespace, sign, underscores);
      and the f-string [f"{folder}frame{index}.jpg"] of line 19
      ([save_path]) with a parser that reads the index back.
    - [FileSystem.v]: the world [Os]: files as a [gmap string], the
      existing directories as a [gset], the videos, and an ordered log
      of writes and printed lines; [cv2.imwrite] ([imwrite]) raises on
      a missing image or unknown extension and returns [False] without
      writing when the directory does not exist; [print] ([py_print]).
    - [VideoCapture.v]: [cap.read()] as the class [VideoCapture] with
      its contract [VideoCaptureOk] and the measure [FiniteCapture];
      the instances for a video file (a list of decoded frames) and for
      a live camera (a stream that may never end).
    - [Sampler.v]: lines 13-33, in two modules.  [SamplerLoop] is the
      script: the globals [cap], [success], [img], [frame_number] and
      the world form the record [State]; each statement is an
      operation of [PyM State]: [loop_body] is lines 23-30, [run_loop]
      the [while success:] loop with fuel, [script] the whole of lines
      13-33; the loop is also the step relation [loop_step] with its
      [reachable] states.  [SamplerSpec] is the abstract specification
      (the (index, frame) pairs saved, the log of writes and prints,
      as list comprehensions over the frame numbers), the refinement
      theorem that [script] computes it on a video file, its
      consequences for positive, zero and negative rates and a missing
      folder, and the closed forms of the loop's reachable states on a
      video file ([state_after]) and on any capture ([capture_after]).
    - [Argparse.v]: lines 4-11.  [parser_arguments] is the list of the
      three [add_argument] calls; [parse_args] is CPython 3.11's
      parsing algorithm restricted to what they use ([_parse_optional],
      [_get_option_tuples], [consume_optional], [consume_positionals],
      [_get_values], the defaults and the errors); [config_of_ns] reads
      [args.*] off the namespace and [main] runs the whole program.
    - [Scenarios.v]: the scenarios of the specification and three
      command lines run through the model by [vm_compute], and a closed
      instance of every theorem that has hypotheses.

    ** What the theorems show

    - Refinement (C1, C22): for every nonzero rate the script ends in
      state DONE and leaves exactly the world of the specification
      followed by the final line; [main] is [parse_args] followed by
      the script.
    - Positive rate (C2-C4): files [frame1.jpg .. frame<T // r>.jpg]
      are written in order, file [k] holds frame [k * r]; the final
      line reports the number of files; the progress lines are those of
      frames [100 r, 200 r, ...].
    - Errors and edges (C5-C8, C19-C21, C24): a zero rate raises
      before anything is written; a missing folder writes nothing and
      still prints every count; a negative rate writes negative indices
      and reports a count that disagrees with them; a folder without a
      trailing [/] puts the files beside it; invalid or missing
      arguments exit with status 2 and [-h] with status 0; for every
      path, [--frame_rate=--] makes the rate the empty list (a
      [TypeError], the world unchanged) and
      [--output_frames_folder_path=--] the folder [[]].
    - Termination (C9, C16): the loop on a finite capture and
      [parse_args] on every command line.
    - Strings (C10, C11, C18): the index is read back from the file
      name; [str(n)] is the reference printer (sign, digits, no leading
      zero); every int passed as [--frame_rate] is the rate.
    - Invariants, safety and liveness (C12-C15): the reachable states
      of the loop are the closed forms, on a video file and on any
      capture honouring [read()]'s contract (a live camera included),
      where the world is the specification's for the frames read so
      far; on such a capture the loop never raises for a nonzero rate;
      on a camera that never stops delivering, every index
      [frame<m>.jpg] is eventually written with the frame of read
      [m * rate].
    - Types (C23): every namespace [parse_args] returns holds each
      argument with a value of its declared type, or the empty list a
      lone [--] stores; so [config_of_ns] fails only on that empty
      list.

    ** Fuel and bounds

    [run_loop] is a [while] loop over a capture that a live camera
    never exhausts, so it takes fuel.  After the first read a video
    file of [T] frames has [T - 1] left and every iteration consumes
    one, so fuel [T] suffices for [script] (C1 asks [T <= fuel]) and
    more fuel than frames left suffices for [run_loop] (C9).
    [parse_args] gives its loop one round per command-line string plus
    one, which suffices because every round consumes a string (C16).
    The reference printer [str_ref] gives its digit loop [log2 |n| + 1]
    rounds: a number below [2 ^ (k + 1)] has at most [k + 1] digits.
    Python ints are unbounded, so [Z] needs no width.

    ** Not modelled

    Video decoding and JPEG encoding: a frame is a value of an
    arbitrary type [F] that the file system stores as it is.  The text
    of [argparse]'s help and usage messages: errors are kept as values
    of [ArgError].  The [TypeError] that a non-int [frame_rate] raises
    is modelled at the level of the world (nothing written or printed),
    not of the globals the script had assigned before it.  Non-ASCII
    strings.
*)

From stdpp Require Export base list gmap strings.
From Stdlib Require Export ZArith Lia.

(** The exceptions the script can raise. *)
Inductive PyExc :=
  | ZeroDivisionError
  | CvError (what : string)
  | TypeError
  | SystemExit (code : Z).

(** The outcome of a computation: a value, a raised exception, or the
    loop ran out of fuel (the model's own way of not terminating). *)
Inductive Outcome (A : Type) :=
  | Ok (a : A)
  | Raised (e : PyExc)
  | OutOfFuel.
Arguments Ok {A} a.
Arguments Raised {A} e.
Arguments OutOfFuel {A}.

(** A state and exception monad: exceptions keep the state reached so
    far (files already written stay written). *)
Definition PyM (S A : Type) : Type := S -> Outcome A * S.

#[export] Instance py_mret S : MRet (PyM S) := fun A a s => (Ok a, s).
#[export] Instance py_mbind S : MBind (PyM S) := fun A B f m s =>
  match m s with
  | (Ok a, s') => f a s'
  | (Raised e, s') => (Raised e, s')
  | (OutOfFuel, s') => (OutOfFuel, s')
  end.

Definition py_get {S} : PyM S S := fun s => (Ok s, s).
Definition py_gets {S A} (f : S -> A) : PyM S A := fun s => (Ok (f s), s).
Definition py_put {S} (s : S) : PyM S unit := fun _ => (Ok tt, s).
Definition py_modify {S} (f : S -> S) : PyM S unit := fun s => (Ok tt, f s).
Definition py_raise {S A} (e : PyExc) : PyM S A := fun s => (Raised e, s).
Definition py_fuel_out {S A} : PyM S A := fun s => (OutOfFuel, s).

(** Python's [a // b] and [a % b] on ints: floor division and the
    remainder with the sign of the divisor, which are [Z.div] and
    [Z.modulo]; a zero divisor raises [ZeroDivisionError]. *)
Definition py_floordiv {S} (a b : Z) : PyM S Z :=
  if Z.eqb b 0 then py_raise ZeroDivisionError else mret (a / b)%Z.
Definition py_mod {S} (a b : Z) : PyM S Z :=
  if Z.eqb b 0 then py_raise ZeroDivisionError else mret (a mod b)%Z.

(** Insert the pairs [kvs] into [m], in order. *)
Definition insert_all {K V} `{Countable K} (kvs : list (K * V)) (m : gmap K V) : gmap K V :=
  fold_left (fun m '(k, v) => <[k := v]> m) kvs m.

Declare Scope py_scope.
Delimit Scope py_scope with py.
Notation "a '//' b" := (py_floordiv a b) (at level 40, left associativity) : py_scope.
Notation "a '%%' b" := (py_mod a b) (at level 40, left associativity) : py_scope.

Create HintDb py_monad.
Create Rewrite HintDb py_rw.

(** Running a bind: the step lemmas that the proofs of the script use
    instead of unfolding the monad. *)
Section MonadRun.
Context {S : Type}.

Lemma bind_run {A B} (m : PyM S A) (f : A -> PyM S B) s :
  (m ≫= f) s =
    match m s with
    | (Ok a, s') => f a s'
    | (Raised e, s') => (Raised e, s')
    | (OutOfFuel, s') => (OutOfFuel, s')
    end.
Proof. reflexivity. Qed.

Lemma bind_ok {A B} (m : PyM S A) (f : A -> PyM S B) s a s' :
  m s = (Ok a, s') -> (m ≫= f) s = f a s'.
Proof. intros H. by rewrite bind_run, H. Qed.

Lemma bind_raised {A B} (m : PyM S A) (f : A -> PyM S B) s e s' :
  m s = (Raised e, s') -> (m ≫= f) s = (Raised e, s').
Proof. intros H. by rewrite bind_run, H. Qed.

Lemma bind_assoc_run {A B C} (m : PyM S A) (f : A -> PyM S B)
      (g : B -> PyM S C) s :
  ((m ≫= f) ≫= g) s = (m ≫= (fun a => f a ≫= g)) s.
Proof. rewrite !bind_run. by destruct (m s) as [[] ?]. Qed.

Lemma floordiv_run a b s :
  b <> 0%Z -> @py_floordiv S a b s = (Ok (a / b)%Z, s).
Proof. intros Hb. unfold py_floordiv. by rewrite (proj2 (Z.eqb_neq _ _) Hb). Qed.

Lemma mod_run a b s :
  b <> 0%Z -> @py_mod S a b s = (Ok (a mod b)%Z, s).
Proof. intros Hb. unfold py_mod. by rewrite (proj2 (Z.eqb_neq _ _) Hb). Qed.

Lemma floordiv_zero a s : @py_floordiv S a 0 s = (Raised ZeroDivisionError, s).
Proof. reflexivity. Qed.

Lemma mod_zero a s : @py_mod S a 0 s = (Raised ZeroDivisionError, s).
Proof. reflexivity. Qed.
End MonadRun.

#[export] Hint Rewrite @bind_assoc_run : py_rw.

(** Unfold the monad's plumbing, leaving the model's own definitions. *)
Ltac py_unfold :=
  unfold mbind, mret, py_mbind, py_mret, py_get, py_gets, py_put, py_modify,
    py_raise, py_fuel_out in *.

(** ** Integer facts shared by the counting arguments *)

Open Scope Z_scope.

(** Stepping the counter by one raises the quotient by one exactly at
    multiples of the divisor. *)
Lemma div_succ (n r : Z) :
  0 < r -> (n + 1) / r = n / r + (if (n + 1) mod r =? 0 then 1 else 0).
Proof.
  intros Hr.
  pose proof (Z.div_mod n r ltac:(lia)) as Hn.
  pose proof (Z.div_mod (n + 1) r ltac:(lia)) as Hn1.
  pose proof (Z.mod_pos_bound n r Hr).
  pose proof (Z.mod_pos_bound (n + 1) r Hr).
  destruct (Z.eqb_spec ((n + 1) mod r) 0); nia.
Qed.

Lemma mod_mul_zero (k r : Z) : r <> 0 -> (k * r) mod r = 0.
Proof. intros Hr. apply Z.mod_mul, Hr. Qed.

Lemma div_mul_exact (k r : Z) : r <> 0 -> (k * r) / r = k.
Proof. intros Hr. apply Z.div_mul, Hr. Qed.

(** [n] is a multiple of [r] exactly when its remainder is zero. *)
Lemma mod_zero_mul (n r : Z) : r <> 0 -> n mod r = 0 -> n = (n / r) * r.
Proof. intros Hr Hm. pose proof (Z.div_mod n r Hr). lia. Qed.

Close Scope Z_scope.

(** ** List facts shared by the specifications *)

Lemma length_seqZ_nat (a : Z) (n : nat) : length (seqZ a (Z.of_nat n)) = n.
Proof. rewrite length_seqZ. lia. Qed.

Lemma omap_ext_in {A B} (h1 h2 : A -> option B) (xs : list A) :
  (forall x, x ∈ xs -> h1 x = h2 x) -> omap h1 xs = omap h2 xs.
Proof.
  intros H. apply list_omap_ext, Forall_Forall2_diag, Forall_forall.
  intros x Hx. by apply H.
Qed.

(** [seqZ] from [1] grows at its end. *)
Lemma seqZ_1_snoc (n : nat) :
  seqZ 1 (Z.of_nat (S n)) = (seqZ 1 (Z.of_nat n) ++ [(Z.of_nat n + 1)%Z])%list.
Proof. by rewrite seqZ_S, Z.add_comm. Qed.

Lemma omap_cons {A B} (h : A -> option B) x xs :
  omap h (x :: xs) = match h x with Some y => y :: omap h xs | None => omap h xs end.
Proof. reflexivity. Qed.

Lemma omap_Some_id {A} (xs : list A) : omap Some xs = xs.
Proof. induction xs as [|x xs IH]; [done|]. by rewrite omap_cons, IH. Qed.

(** A map without duplicates on [l] is injective on [l]. *)
Lemma NoDup_fmap_inj_in {A B} (f : A -> B) (l : list A) x y :
  NoDup (f <$> l) -> x ∈ l -> y ∈ l -> f x = f y -> x = y.
Proof.
  induction l as [|z l IH]; intros Hnd Hx Hy E; [by apply elem_of_nil in Hx|].
  simpl in Hnd. apply NoDup_cons in Hnd as [Hz Hnd].
  apply elem_of_cons in Hx as [->|Hx]; apply elem_of_cons in Hy as [->|Hy]; try done.
  - destruct Hz. rewrite E. apply list_elem_of_fmap. eauto.
  - destruct Hz. rewrite <- E. apply list_elem_of_fmap. eauto.
  - by apply IH.
Qed.

(** A partial map injective where it is defined keeps a list without
    duplicates free of them. *)
Lemma NoDup_omap_inj {A B} (f : A -> option B) (xs : list A) :
  NoDup xs -> (forall x y z, x ∈ xs -> y ∈ xs -> f x = Some z -> f y = Some z -> x = y) ->
  NoDup (omap f xs).
Proof.
  induction 1 as [|x xs Hx Hnd IH]; intros Hinj; [constructor|].
  assert (Hrest : NoDup (omap f xs)).
  { apply IH. intros a b c Ha Hb. apply Hinj; by right. }
  rewrite omap_cons. destruct (f x) as [y|] eqn:Ex; [|done].
  constructor; [|done].
  intros (x' & Hx' & Ey)%list_elem_of_omap.
  apply Hx. rewrite <- (Hinj x' x y); [done|by right|left|done|done].
Qed.

Lemma seqZ_1_snocZ (q : Z) : (0 <= q)%Z -> seqZ 1 (q + 1) = (seqZ 1 q ++ [(q + 1)%Z])%list.
Proof.
  intros Hq. rewrite seqZ_app by lia. f_equal.
  rewrite (seqZ_cons _ 1), (seqZ_nil _ (Z.pred 1)) by lia. f_equal. lia.
Qed.

(** A comprehension over [1 .. n] that keeps only multiples of [d > 0]
    runs over the quotients [1 .. n / d]: the counting argument behind
    the saved files and the progress lines. *)
Lemma omap_seqZ_multiples {B} (h : Z -> option B) (d : Z) (n : nat) :
  (0 < d)%Z -> (forall j, (j mod d <> 0)%Z -> h j = None) ->
  omap h (seqZ 1 (Z.of_nat n)) = omap (fun m => h (m * d)%Z) (seqZ 1 (Z.of_nat n / d)).
Proof.
  intros Hd Hoff. induction n as [|n IH]; [by rewrite Z.div_0_l by lia|].
  rewrite seqZ_1_snoc, omap_app, IH.
  replace (Z.of_nat (S n)) with (Z.of_nat n + 1)%Z by lia.
  rewrite (div_succ _ _ Hd).
  assert (0 <= Z.of_nat n / d)%Z by (apply Z.div_pos; lia).
  destruct (Z.eqb_spec ((Z.of_nat n + 1) mod d) 0) as [E|E].
  - rewrite seqZ_1_snocZ, omap_app by done. f_equal. simpl.
    pose proof (div_succ (Z.of_nat n) d Hd) as Hs.
    rewrite E in Hs. simpl in Hs. rewrite <- Hs, <- (mod_zero_mul (Z.of_nat n + 1) d ltac:(lia) E). done.
  - rewrite Z.add_0_r, omap_cons, (Hoff _ E). simpl. by rewrite app_nil_r.
Qed.

(** Keys inserted in order into a map, none twice. *)
Section FoldInsert.
Context {K V : Type} `{Countable K}.
Implicit Types (kvs : list (K * V)) (m : gmap K V) (k : K) (v : V).

Lemma insert_all_lookup_in kvs m k v :
  NoDup kvs.*1 -> (k, v) ∈ kvs -> insert_all kvs m !! k = Some v.
Proof.
  revert m. induction kvs as [|[k' v'] kvs IH]; intros m Hnd Hin; [set_solver|].
  simpl. apply NoDup_cons in Hnd as [Hk' Hnd].
  apply elem_of_cons in Hin as [[= -> ->]|Hin]; [|by apply IH].
  clear IH. revert m. induction kvs as [|[k'' v''] kvs IH]; intros m; simpl.
  - by rewrite lookup_insert_eq.
  - rewrite not_elem_of_cons in Hk'. destruct Hk' as [Hne Hk'].
    apply NoDup_cons in Hnd as [_ Hnd].
    rewrite insert_insert_ne by done. by apply IH.
Qed.

Lemma insert_all_lookup_notin kvs m k :
  k ∉ kvs.*1 -> insert_all kvs m !! k = m !! k.
Proof.
  revert m. induction kvs as [|[k' v'] kvs IH]; intros m Hk; [done|].
  simpl in *. rewrite not_elem_of_cons in Hk. destruct Hk as [Hne Hk].
  rewrite IH by done. by rewrite lookup_insert_ne.
Qed.

Lemma insert_all_size kvs m :
  NoDup kvs.*1 -> (forall k, k ∈ kvs.*1 -> m !! k = None) ->
  size (insert_all kvs m) = (size m + length kvs)%nat.
Proof.
  revert m. induction kvs as [|[k v] kvs IH]; intros m Hnd Hfresh; simpl; [lia|].
  apply NoDup_cons in Hnd as [Hk Hnd].
  rewrite IH; [rewrite map_size_insert_None; [lia|] | done |].
  - apply Hfresh, elem_of_cons. by left.
  - intros k' Hk'. rewrite lookup_insert_ne by (intros ->; contradiction).
    apply Hfresh, elem_of_cons. by right.
Qed.

End FoldInsert.

Lemma omap_Some_map {A B} (g : A -> B) (xs : list A) : omap (fun x => Some (g x)) xs = map g xs.
Proof. induction xs as [|x xs IH]; [done|]. by rewrite omap_cons, IH. Qed.
