(* ===== verification/PyStr.v ===== *)
(** * Python strings of the script

    [str(int)] as Python prints it (decimal, a leading [-] for negative
    numbers, no leading zeros), proved equal to a digit-by-digit
    reference printer; the f-string [f"{folder}frame{index}.jpg"] of
    [save_img] (src/getting_images_from_video.py, lines 18-19) and a
    parser that reads the index back from such a path, so that the file
    names of distinct indices are distinct; and Python's [int()] on a
    string, as [type=int] applies it to a command-line value, which
    reads back every [str(n)]. *)

From S2P Require Import Prelude.
From Stdlib Require Import Ascii String DecimalString DecimalZ DecimalPos.

Open Scope Z_scope.
Open Scope string_scope.

Module PyStr.

(** Python's [str(n)] on an int, as used inside the f-strings of lines
    19, 30 and 33. *)
Definition py_str_int (n : Z) : string := NilZero.string_of_int (Z.to_int n).

(** ** A reference printer for [str(int)]

    What CPython's [str] does on an int, digit by digit: the last
    digit is [n mod 10], the others are those of [n // 10], and a [-]
    goes before the digits of [|n|].  [py_str_int] must agree with it. *)

(** The character of the digit [d] (0 to 9). *)
Definition digit_char (d : Z) : ascii := ascii_of_nat (Z.to_nat (48 + d)).

(** The decimal digits of [n >= 0], most significant first; [fuel]
    bounds the number of digits. *)
Fixpoint dec_digits (fuel : nat) (n : Z) : list Z :=
  match fuel with
  | O => []
  | S f => if bool_decide (n < 10) then [n] else (dec_digits f (n / 10) ++ [n mod 10])%list
  end.

(** [str(n)] by the reference algorithm.  A number below [2 ^ (k+1)]
    has at most [k + 1] digits, so [log2 |n| + 1] rounds suffice. *)
Definition str_ref (n : Z) : string :=
  let m := Z.abs n in
  let s := string_of_list_ascii (digit_char <$> dec_digits (S (Z.to_nat (Z.log2 m))) m) in
  if bool_decide (n < 0) then String "-" s else s.

(** The digit [d] put before the Standard Library's decimal [u]. *)
Definition digit_uint (d : Z) (u : Decimal.uint) : Decimal.uint :=
  match d with
  | 0 => Decimal.D0 u | 1 => Decimal.D1 u | 2 => Decimal.D2 u | 3 => Decimal.D3 u
  | 4 => Decimal.D4 u | 5 => Decimal.D5 u | 6 => Decimal.D6 u | 7 => Decimal.D7 u
  | 8 => Decimal.D8 u | _ => Decimal.D9 u
  end.

(** A decimal digit. *)
Definition is_dec_digit (d : Z) : Prop := 0 <= d <= 9.

(** The value of a digit list, read from the left. *)
Definition digits_value (acc : Z) (l : list Z) : Z := fold_left (fun a d => 10 * a + d) l acc.

(** ** Parsers *)

(** The decimal parser of the Standard Library, which inverts
    [py_str_int]. *)
Definition py_int_of_str (s : string) : option Z :=
  option_map Z.of_int (NilZero.int_of_string s).

(** Membership of a character in a string. *)
Fixpoint str_mem (c : ascii) (s : string) : bool :=
  match s with
  | EmptyString => false
  | String a s' => bool_decide (a = c) || str_mem c s'
  end.

(** [s] with the prefix [p] removed, if [p] is one. *)
Fixpoint strip_prefix (p s : string) : option string :=
  match p, s with
  | EmptyString, _ => Some s
  | String a p', String b s' => if bool_decide (a = b) then strip_prefix p' s' else None
  | String _ _, EmptyString => None
  end.

(** [s] split before the first occurrence of [c]. *)
Fixpoint split_at_char (c : ascii) (s : string) : string * string :=
  match s with
  | EmptyString => ("", "")
  | String a s' =>
      if bool_decide (a = c) then ("", s)
      else let '(x, y) := split_at_char c s' in (String a x, y)
  end.

(** [save_img]'s path [f"{folder}frame{index}.jpg"] (line 19). *)
Definition save_path (folder : string) (index : Z) : string :=
  folder ++ "frame" ++ py_str_int index ++ ".jpg".

(** Reading the index back from a path written under [folder]. *)
Definition parse_save_path (folder path : string) : option Z :=
  match strip_prefix (folder ++ "frame") path with
  | None => None
  | Some rest =>
      let '(digits, ext) := split_at_char "." rest in
      if bool_decide (ext = ".jpg") then py_int_of_str digits else None
  end.

Definition digit_chars : list ascii :=
  ["0"; "1"; "2"; "3"; "4"; "5"; "6"; "7"; "8"; "9"]%char.

(** ** Python's [int()] on a string *)

(** The ASCII characters [str.isspace()] accepts, which [int()] strips. *)
Definition py_space (c : ascii) : bool :=
  bool_decide (c ∈ [" "; "009"; "010"; "011"; "012"; "013"; "028"; "029"; "030"; "031"]%char).

Fixpoint lstrip (s : string) : string :=
  match s with
  | EmptyString => EmptyString
  | String c s' => if py_space c then lstrip s' else s
  end.

Fixpoint rstrip (s : string) : string :=
  match s with
  | EmptyString => EmptyString
  | String c s' =>
      let r := rstrip s' in
      if py_space c && bool_decide (r = EmptyString) then EmptyString else String c r
  end.

Definition py_strip (s : string) : string := rstrip (lstrip s).

Definition digit_val (c : ascii) : option Z :=
  let n := Z.of_nat (nat_of_ascii c) - 48 in
  if bool_decide (0 <= n <= 9) then Some n else None.

(** Decimal digits read from the left into [acc]; an underscore is
    allowed only right after a digit, and the string must end on a
    digit. *)
Fixpoint py_digits (acc : Z) (after_digit : bool) (s : string) : option Z :=
  match s with
  | EmptyString => if after_digit then Some acc else None
  | String c s' =>
      if bool_decide (c = "_"%char) then
        if after_digit then py_digits acc false s' else None
      else match digit_val c with
           | Some d => py_digits (10 * acc + d) true s'
           | None => None
           end
  end.

(** [int(s)] in base 10, as [type=int] calls it on a command-line
    string: surrounding whitespace, an optional sign, then digits with
    single underscores between them.  [None] is the [ValueError]. *)
Definition py_int (s : string) : option Z :=
  match py_strip s with
  | EmptyString => None
  | String c s' =>
      if bool_decide (c = "+"%char) then py_digits 0 false s'
      else if bool_decide (c = "-"%char) then Z.opp <$> py_digits 0 false s'
      else py_digits 0 false (String c s')
  end.

(** The characters of a string are all digits. *)
Definition all_digits (u : string) : Prop := forall c, str_mem c u = true -> c ∈ digit_chars.

(** ** Lemmas on the string helpers *)

Lemma str_mem_app c s t : str_mem c (s ++ t) = str_mem c s || str_mem c t.
Proof. induction s as [|a s IH]; simpl; [done|]. by rewrite IH, orb_assoc. Qed.

Lemma strip_prefix_app p s : strip_prefix p (p ++ s) = Some s.
Proof. induction p as [|a p IH]; simpl; [done|]. by rewrite bool_decide_true. Qed.

Lemma split_at_char_app c s t :
  str_mem c s = false -> split_at_char c (s ++ String c t) = (s, String c t).
Proof.
  induction s as [|a s IH]; simpl; intros Hs.
  - by rewrite bool_decide_true.
  - apply orb_false_iff in Hs as [Ha Hs]. rewrite Ha, IH by done. done.
Qed.

(** Membership in a literal list of characters, by computation. *)
Ltac char_in := rewrite ?list_elem_of_In in * |- *; simpl in *; tauto.
(** A closed membership question, decided by computation. *)
Ltac char_decide := apply (bool_decide_eq_true_1 _); vm_compute; reflexivity.

Lemma str_mem_cons c a s :
  str_mem c (String a s) = true -> a = c \/ str_mem c s = true.
Proof. simpl. rewrite orb_true_iff, bool_decide_eq_true. done. Qed.

Lemma uint_chars c d :
  str_mem c (NilEmpty.string_of_uint d) = true -> c ∈ digit_chars.
Proof.
  induction d; simpl NilEmpty.string_of_uint; intros H; [done|..];
    apply str_mem_cons in H as [<-|H]; auto; char_in.
Qed.

Lemma nilzero_uint_chars c d :
  str_mem c (NilZero.string_of_uint d) = true -> c ∈ digit_chars.
Proof.
  destruct d; try apply uint_chars.
  intros H. apply str_mem_cons in H as [<-|H]; [char_in | done].
Qed.

Lemma py_str_int_chars c n :
  str_mem c (py_str_int n) = true -> c ∈ ("-"%char :: digit_chars).
Proof.
  unfold py_str_int, NilZero.string_of_int.
  destruct (Z.to_int n) as [d|d]; intros H.
  - apply nilzero_uint_chars in H. char_in.
  - apply str_mem_cons in H as [<-|H]; [char_in|].
    apply nilzero_uint_chars in H. char_in.
Qed.

(** A character that is neither a digit nor [-] does not occur in
    [str(n)]: neither [.] nor [/]. *)
Lemma py_str_int_no_char c n :
  c ∉ ("-"%char :: digit_chars) -> str_mem c (py_str_int n) = false.
Proof.
  intros Hc. destruct (str_mem c (py_str_int n)) eqn:E; [|done].
  by apply py_str_int_chars in E.
Qed.

Lemma to_int_not_nil n :
  Z.to_int n <> Decimal.Pos Decimal.Nil /\ Z.to_int n <> Decimal.Neg Decimal.Nil.
Proof.
  destruct n as [|p|p]; simpl; split; try done;
    intros [= E]; by apply (Unsigned.to_uint_nonnil p).
Qed.

(** stdpp makes [String.append] opaque to [simpl]; these are its
    equations. *)
Lemma str_app_cons a (s t : string) : String a s ++ t = String a (s ++ t).
Proof. reflexivity. Qed.

Lemma str_app_assoc (s t u : string) : (s ++ t) ++ u = s ++ (t ++ u).
Proof. induction s as [|a s IH]; [done|]. by rewrite !str_app_cons, IH. Qed.

(** The digit strings of the Standard Library are read by [py_digits]. *)
Lemma py_digits_acc (d : Decimal.uint) (acc : positive) :
  py_digits (Z.pos acc) true (NilEmpty.string_of_uint d) = Some (Z.pos (Pos.of_uint_acc d acc)).
Proof.
  revert acc. induction d; intros acc; [done|..]; simpl; rewrite <- IHd; f_equal;
    match goal with |- context [Z.of_nat (nat_of_ascii ?c) - 48] =>
      let v := eval vm_compute in (Z.of_nat (nat_of_ascii c) - 48) in
      change (Z.of_nat (nat_of_ascii c) - 48) with v end; lia.
Qed.

Lemma py_digits_uint (d : Decimal.uint) :
  py_digits 0 true (NilEmpty.string_of_uint d) = Some (Z.of_N (Pos.of_uint d)).
Proof.
  induction d; [done|apply IHd|..]; simpl; apply py_digits_acc.
Qed.

Lemma py_strip_id s :
  (forall c, str_mem c s = true -> py_space c = false) -> py_strip s = s.
Proof.
  intros Hs. assert (Hl : lstrip s = s).
  { destruct s as [|a s]; [done|]. simpl. rewrite Hs; [done|]. simpl. by rewrite bool_decide_true. }
  unfold py_strip. rewrite Hl. clear Hl. induction s as [|a s IH]; [done|]. simpl.
  rewrite IH by (intros c Hc; apply Hs; simpl; rewrite Hc; apply orb_true_r).
  by rewrite (Hs a) by (simpl; by rewrite bool_decide_true).
Qed.

Lemma py_str_int_no_space n : py_strip (py_str_int n) = py_str_int n.
Proof.
  apply py_strip_id. intros c Hc%py_str_int_chars.
  unfold py_space. apply bool_decide_eq_false_2. intros Hs.
  revert Hc Hs. rewrite !list_elem_of_In. simpl. intuition subst; discriminate.
Qed.

Lemma uint_string_head (d : Decimal.uint) :
  d <> Decimal.Nil ->
  exists c s, NilEmpty.string_of_uint d = String c s /\ c <> "+"%char /\ c <> "-"%char /\
    py_digits 0 false (String c s) = py_digits 0 true (String c s).
Proof. destruct d; [done|..]; intros _; do 2 eexists; (split; [reflexivity|]); done. Qed.

Lemma nilzero_nilempty (d : Decimal.uint) :
  d <> Decimal.Nil -> NilZero.string_of_uint d = NilEmpty.string_of_uint d.
Proof. by destruct d. Qed.

(** [str(n)] is a digit and digits, after a [-] when [n < 0]. *)
Lemma py_str_int_shape (n : Z) :
  exists d u, d ∈ digit_chars /\ all_digits u /\
    py_str_int n = if bool_decide (n < 0) then String "-" (String d u) else String d u.
Proof.
  unfold py_str_int. destruct n as [|p|p]; simpl Z.to_int;
    [exists "0"%char, ""; split; [char_in|split; [done|reflexivity]]| |];
    pose proof (Unsigned.to_uint_nonnil p) as Hd;
    destruct (uint_string_head _ Hd) as (c & s & E & _ & _ & _);
    exists c, s; (split; [apply (uint_chars c (Pos.to_uint p)); rewrite E; simpl; by rewrite bool_decide_true|]);
    (split; [intros c' Hc'; apply (uint_chars c' (Pos.to_uint p)); rewrite E; simpl; by rewrite Hc', orb_true_r|]);
    cbn [NilZero.string_of_int]; rewrite nilzero_nilempty, E by done; done.
Qed.

(** ** The reference printer *)

Lemma digit_char_val d :
  is_dec_digit d -> digit_val (digit_char d) = Some d /\ digit_char d <> "_"%char.
Proof.
  intros Hd. unfold is_dec_digit, digit_val, digit_char in *.
  rewrite nat_ascii_embedding by lia. split.
  - rewrite bool_decide_true by lia. f_equal. lia.
  - intros E. apply (f_equal nat_of_ascii) in E. rewrite nat_ascii_embedding in E by lia.
    change (nat_of_ascii "_") with 95%nat in E. lia.
Qed.

Lemma string_of_digit_uint d u :
  is_dec_digit d ->
  NilEmpty.string_of_uint (digit_uint d u) = String (digit_char d) (NilEmpty.string_of_uint u).
Proof.
  unfold is_dec_digit. intros Hd.
  assert (d = 0 \/ d = 1 \/ d = 2 \/ d = 3 \/ d = 4 \/ d = 5 \/ d = 6 \/ d = 7 \/ d = 8 \/ d = 9)
    as Hc by lia.
  repeat destruct Hc as [->|Hc]; [reflexivity..|subst; reflexivity].
Qed.

Lemma string_of_digits_uint l :
  Forall is_dec_digit l ->
  NilEmpty.string_of_uint (foldr digit_uint Decimal.Nil l) =
    string_of_list_ascii (digit_char <$> l).
Proof.
  induction 1 as [|d l Hd _ IH]; [done|]. simpl. by rewrite string_of_digit_uint, IH.
Qed.

Lemma py_digits_digits acc b l :
  Forall is_dec_digit l -> (l <> [] \/ b = true) ->
  py_digits acc b (string_of_list_ascii (digit_char <$> l)) = Some (digits_value acc l).
Proof.
  intros Hl. revert acc b. induction Hl as [|d l Hd _ IH]; intros acc b Hb.
  - destruct Hb as [Hn| ->]; [done|done].
  - destruct (digit_char_val d Hd) as [Hv Hu]. simpl.
    rewrite bool_decide_false by done. rewrite Hv. apply IH. by right.
Qed.

Lemma dec_digits_S f m :
  dec_digits (S f) m = if bool_decide (m < 10) then [m] else (dec_digits f (m / 10) ++ [m mod 10])%list.
Proof. reflexivity. Qed.

Lemma dec_digits_spec f m :
  0 <= m < 2 ^ Z.of_nat (S f) ->
  let l := dec_digits (S f) m in
  Forall is_dec_digit l /\ digits_value 0 l = m /\
  exists d l', l = d :: l' /\ (d = 0 -> m = 0 /\ l' = []).
Proof.
  revert m. induction f as [|f IH]; intros m Hm; cbn zeta; rewrite dec_digits_S.
  - rewrite bool_decide_true by (simpl in Hm; lia). split; [repeat constructor; unfold is_dec_digit; lia|].
    split; [done|]. eexists _, []. split; [done|simpl in Hm; split; [lia|done]].
  - case_bool_decide as H10.
    + split; [repeat constructor; unfold is_dec_digit; lia|]. split; [done|].
      eexists _, []. split; [done|split; [lia|done]].
    + assert (Hq : 0 <= m / 10 < 2 ^ Z.of_nat (S f)).
      { split; [apply Z.div_pos; lia|]. rewrite Nat2Z.inj_succ, Z.pow_succ_r in * by lia.
        rewrite Nat2Z.inj_succ, Z.pow_succ_r in Hm by lia.
        pose proof (Z.mul_div_le m 10 ltac:(lia)). lia. }
      destruct (IH (m / 10) Hq) as (Hds & Hv & d & l' & Hl & Hd).
      split; [|split].
      * apply Forall_app. split; [done|]. constructor; [|done].
        unfold is_dec_digit. pose proof (Z.mod_pos_bound m 10). lia.
      * unfold digits_value in *. rewrite fold_left_app. cbn [fold_left]. rewrite Hv.
        pose proof (Z.div_mod m 10). lia.
      * rewrite Hl. exists d, (l' ++ [m mod 10])%list. split; [done|]. intros ->.
        assert (m / 10 = 0) by (apply Hd; done). pose proof (Z.div_mod m 10). pose proof (Z.mod_pos_bound m 10). lia.
Qed.

Lemma digit_uint_not_nil d u : digit_uint d u <> Decimal.Nil.
Proof. unfold digit_uint. by repeat case_match. Qed.

Lemma unorm_digits d l' :
  is_dec_digit d -> (d = 0 -> l' = []) ->
  Decimal.unorm (foldr digit_uint Decimal.Nil (d :: l')) = foldr digit_uint Decimal.Nil (d :: l').
Proof.
  unfold is_dec_digit. intros Hd H0. cbn [foldr].
  assert (d = 0 \/ d = 1 \/ d = 2 \/ d = 3 \/ d = 4 \/ d = 5 \/ d = 6 \/ d = 7 \/ d = 8 \/ d = 9)
    as Hc by lia.
  repeat destruct Hc as [->|Hc]; [by rewrite H0|reflexivity..|subst; reflexivity].
Qed.

(** [str] of a non-negative int is its digit list. *)
Lemma string_of_uint_digits m :
  0 <= m ->
  NilZero.string_of_uint (N.to_uint (Z.to_N m)) =
    string_of_list_ascii (digit_char <$> dec_digits (S (Z.to_nat (Z.log2 m))) m).
Proof.
  intros Hm.
  assert (Hb : 0 <= m < 2 ^ Z.of_nat (S (Z.to_nat (Z.log2 m)))).
  { destruct (Z.eq_dec m 0) as [->|Hm0]; [simpl; lia|].
    pose proof (Z.log2_spec m) as Hs. pose proof (Z.log2_nonneg m).
    rewrite Nat2Z.inj_succ, Z2Nat.id by done. lia. }
  destruct (dec_digits_spec _ m Hb) as (Hds & Hv & d & l' & Hl & Hd).
  set (l := dec_digits _ m) in *.
  assert (Hu : N.to_uint (Z.to_N m) = foldr digit_uint Decimal.Nil l).
  { pose proof (py_digits_uint (foldr digit_uint Decimal.Nil l)) as H1.
    rewrite string_of_digits_uint, py_digits_digits, Hv in H1 by (done || (left; by rewrite Hl)).
    injection H1 as H1. rewrite H1, N2Z.id, DecimalPos.Unsigned.to_of, Hl.
    apply unorm_digits; [|apply Hd]. rewrite Hl in Hds. by inversion Hds. }
  rewrite Hu, Hl, nilzero_nilempty by apply digit_uint_not_nil. rewrite <- Hl. by apply string_of_digits_uint.
Qed.

(** C11. Python's [str] on ints, as [py_str_int] computes it, is the
    reference printer: a [-] exactly for a negative number, then the
    digits of [|n|] from the most significant, with no leading zero and
    [0] for zero. *)
Theorem py_str_int_reference n : py_str_int n = str_ref n.
Proof.
  unfold py_str_int, str_ref. destruct n as [|p|p]; [reflexivity| |].
  - rewrite bool_decide_false by lia. change (Z.abs (Z.pos p)) with (Z.pos p).
    rewrite <- string_of_uint_digits by lia. reflexivity.
  - rewrite bool_decide_true by lia. change (Z.abs (Z.neg p)) with (Z.pos p).
    rewrite <- string_of_uint_digits by lia. reflexivity.
Qed.

(** ** Round trips *)

(** The decimal parser reads back what [str] prints. *)
Lemma py_int_of_str_py_str_int (n : Z) : py_int_of_str (py_str_int n) = Some n.
Proof.
  unfold py_int_of_str, py_str_int.
  destruct (to_int_not_nil n) as [H1 H2].
  rewrite NilZero.isi by done. simpl. by rewrite DecimalZ.of_to.
Qed.

Lemma parse_save_path_save_path (folder : string) (k : Z) :
  parse_save_path folder (save_path folder k) = Some k.
Proof.
  unfold parse_save_path, save_path.
  rewrite <- str_app_assoc, strip_prefix_app.
  rewrite (split_at_char_app "." (py_str_int k) "jpg")
    by (apply py_str_int_no_char; char_decide).
  rewrite bool_decide_true by done. apply py_int_of_str_py_str_int.
Qed.

(** Distinct indices give distinct paths, so [save_img] never
    overwrites a frame of the same run under another index. *)
Lemma save_path_inj (folder : string) (k1 k2 : Z) :
  save_path folder k1 = save_path folder k2 -> k1 = k2.
Proof.
  intros H. apply (f_equal (parse_save_path folder)) in H.
  rewrite !parse_save_path_save_path in H. congruence.
Qed.

(** [int(str(n))] is [n]: a number printed by Python is read back by
    [type=int]. *)
Lemma py_int_py_str_int (n : Z) : py_int (py_str_int n) = Some n.
Proof.
  unfold py_int. rewrite py_str_int_no_space. unfold py_str_int.
  destruct n as [|p|p]; [reflexivity| |]; cbn [Z.to_int NilZero.string_of_int];
    pose proof (Unsigned.to_uint_nonnil p) as Hd;
    destruct (uint_string_head _ Hd) as (c & s & E & Hp & Hm & Hf);
    rewrite nilzero_nilempty by done.
  - rewrite E. cbn -[py_digits]. rewrite !bool_decide_false by done.
    by rewrite Hf, <- E, py_digits_uint, DecimalPos.Unsigned.of_to.
  - simpl. by rewrite E, Hf, <- E, py_digits_uint, DecimalPos.Unsigned.of_to.
Qed.

(** C10. The index is read back from the path [save_img] writes,
    whatever the folder and the index. *)
Theorem parse_save_path_roundtrip (folder : string) (k : Z) :
  parse_save_path folder (save_path folder k) = Some k.
Proof. apply parse_save_path_save_path. Qed.

End PyStr.
