(* ===== verification/FileSystem.v ===== *)
(** * The world the script acts on

    The file system and standard output as the script sees them:
    images written by [cv2.imwrite] (a [gmap] from path to image),
    the set of directories that exist, the video files that
    [cv2.VideoCapture] can open, and an ordered log of the script's
    input/output events, from which standard output is read off.

    [cv2.imwrite(path, img)] (called by [save_img], line 19) raises
    [cv2.error] when [img] is [None] or when the extension of [path] has
    no encoder; otherwise it writes the image and returns [True] when
    the directory of [path] exists, and returns [False] and writes
    nothing when it does not.  [print] appends one line. *)

From S2P Require Import Prelude PyStr.
From Stdlib Require Import Ascii String.
Import PyStr.

Open Scope string_scope.

Module FileSystem.

(** One input/output event of the script, in the order performed. *)
Inductive IoEvent :=
  | EvWrite (path : string) (written : bool)
  | EvPrint (line : string).

#[export] Instance IoEvent_eq_dec : EqDecision IoEvent.
Proof. solve_decision. Defined.

Record Os (F : Type) := mkOs {
  os_files : gmap string F;           (** images on disk, by path *)
  os_dirs : gset string;              (** directories that exist, with their trailing [/] *)
  os_videos : gmap string (list F);   (** decoded frames of each video file *)
  os_log : list IoEvent               (** the events performed so far *)
}.
Arguments mkOs {F}.
Arguments os_files {F}.
Arguments os_dirs {F}.
Arguments os_videos {F}.
Arguments os_log {F}.

(** The lines printed to standard output. *)
Definition stdout_of (log : list IoEvent) : list string :=
  omap (fun e => match e with EvPrint s => Some s | _ => None end) log.

(** The paths whose write was attempted, with the value [imwrite]
    returned. *)
Definition writes_of (log : list IoEvent) : list (string * bool) :=
  omap (fun e => match e with EvWrite p b => Some (p, b) | _ => None end) log.

(** The directory part of a path: its prefix up to and including the
    last [/]; the empty string is the current directory. *)
Fixpoint dir_of (s : string) : string :=
  match s with
  | EmptyString => ""
  | String a s' =>
      if str_mem "/" s' then String a (dir_of s')
      else if bool_decide (a = "/"%char) then "/" else ""
  end.

(** The current directory always exists. *)
Definition dir_exists (dirs : gset string) (d : string) : bool :=
  bool_decide (d = "" \/ d ∈ dirs).

(** [s] ends with [suffix]. *)
Definition has_suffix (suffix s : string) : bool :=
  let n := String.length s in
  let m := String.length suffix in
  (m <=? n)%nat && String.eqb (substring (n - m) m s) suffix.

(** Extensions OpenCV has an image encoder for (lower case). *)
Definition encoder_exts : list string :=
  [".jpg"; ".jpeg"; ".jpe"; ".png"; ".bmp"; ".dib"; ".tif"; ".tiff";
   ".webp"; ".pbm"; ".pgm"; ".ppm"; ".pxm"; ".pnm"; ".sr"; ".ras";
   ".exr"; ".hdr"; ".pic"; ".jp2"].

Definition has_encoder (path : string) : bool :=
  existsb (fun e => has_suffix e path) encoder_exts.

Section WithFrame.
Context {F : Type}.

Definition set_files (files : gmap string F) (os : Os F) : Os F :=
  mkOs files (os_dirs os) (os_videos os) (os_log os).

Definition log_event (e : IoEvent) (os : Os F) : Os F :=
  mkOs (os_files os) (os_dirs os) (os_videos os) (os_log os ++ [e]).

(** What [cv2.imwrite] does to the world once it has an image and an
    encoder: write it if the directory exists, and log the attempt. *)
Definition write_effect (path : string) (f : F) (os : Os F) : Os F :=
  if dir_exists (os_dirs os) (dir_of path) then
    log_event (EvWrite path true) (set_files (<[path := f]> (os_files os)) os)
  else log_event (EvWrite path false) os.

(** [cv2.imwrite(path, img)]: its value is whether the file was
    written. *)
Definition imwrite (path : string) (img : option F) (os : Os F) : Outcome bool * Os F :=
  match img with
  | None => (Raised (CvError "imwrite: img is None"), os)
  | Some f =>
      if negb (has_encoder path) then
        (Raised (CvError "imwrite: could not find a writer for the extension"), os)
      else (Ok (dir_exists (os_dirs os) (dir_of path)), write_effect path f os)
  end.

(** [print(line)]. *)
Definition py_print (line : string) (os : Os F) : Os F :=
  log_event (EvPrint line) os.
End WithFrame.

(** ** Lemmas *)

(** [imwrite] returns or raises; it has no loop to run out of fuel. *)
Lemma imwrite_not_out_of_fuel {F} path (img : option F) os :
  (imwrite path img os).1 <> OutOfFuel.
Proof. unfold imwrite. by repeat case_match. Qed.

Lemma stdout_of_app l1 l2 : stdout_of (l1 ++ l2) = (stdout_of l1 ++ stdout_of l2)%list.
Proof. apply omap_app. Qed.

Lemma writes_of_app l1 l2 : writes_of (l1 ++ l2) = (writes_of l1 ++ writes_of l2)%list.
Proof. apply omap_app. Qed.

Lemma dir_of_noslash s : str_mem "/" s = false -> dir_of s = "".
Proof.
  induction s as [|a s IH]; simpl; [done|].
  intros [Ha Hs]%orb_false_iff. rewrite Hs.
  by rewrite bool_decide_false by (intros ->; by rewrite bool_decide_true in Ha).
Qed.

(** Appending a string without [/] does not change the directory. *)
Lemma dir_of_app_noslash s t :
  str_mem "/" t = false -> dir_of (s ++ t) = dir_of s.
Proof.
  intros Ht. induction s as [|a s IH].
  - by apply dir_of_noslash.
  - rewrite str_app_cons. simpl. rewrite IH, str_mem_app, Ht, orb_false_r. done.
Qed.

Lemma dir_of_trailing_slash p : dir_of (p ++ "/") = p ++ "/".
Proof.
  induction p as [|a p IH]; [done|].
  rewrite str_app_cons. simpl. rewrite str_mem_app. simpl.
  rewrite orb_true_r, IH. done.
Qed.

Lemma substring_app_r (s t : string) m :
  substring (String.length s) m (s ++ t) = substring 0 m t.
Proof. induction s as [|a s IH]; [done|]. rewrite str_app_cons. apply IH. Qed.

Lemma substring_whole (t : string) : substring 0 (String.length t) t = t.
Proof. induction t as [|a t IH]; simpl; [done|]. by rewrite IH. Qed.

Lemma str_length_app (s t : string) :
  String.length (s ++ t) = (String.length s + String.length t)%nat.
Proof. induction s as [|a s IH]; [done|]. rewrite str_app_cons. simpl. by rewrite IH. Qed.

Lemma has_suffix_app (s t : string) : has_suffix t (s ++ t) = true.
Proof.
  unfold has_suffix. rewrite str_length_app.
  replace (String.length s + String.length t - String.length t)%nat
    with (String.length s) by lia.
  rewrite substring_app_r, substring_whole, String.eqb_refl.
  apply andb_true_intro. split; [apply Nat.leb_le; lia | done].
Qed.

(** The file name part of [save_img]'s path has no [/]. *)
Lemma save_name_noslash k : str_mem "/" ("frame" ++ py_str_int k ++ ".jpg") = false.
Proof.
  rewrite !str_mem_app, py_str_int_no_char by char_decide. reflexivity.
Qed.

(** OpenCV has an encoder for every path [save_img] writes. *)
Lemma save_path_has_encoder folder k : has_encoder (save_path folder k) = true.
Proof.
  unfold has_encoder, save_path. simpl. rewrite <- !str_app_assoc.
  by rewrite has_suffix_app.
Qed.

(** [save_img] writes into the directory of [folder]. *)
Lemma dir_of_save_path folder k : dir_of (save_path folder k) = dir_of folder.
Proof. unfold save_path. apply dir_of_app_noslash, save_name_noslash. Qed.

(** A directory part is empty (no [/] in the path) or ends with [/]. *)
Lemma dir_of_shape s :
  (str_mem "/" s = false -> dir_of s = "") /\
  (str_mem "/" s = true -> exists d, dir_of s = d ++ "/").
Proof.
  induction s as [|a s [IH1 IH2]]; simpl; [done|].
  destruct (str_mem "/" s) eqn:Hs.
  - rewrite orb_true_r. split; [done|]. intros _.
    destruct (IH2 eq_refl) as [d ->]. by exists (String a d).
  - rewrite orb_false_r. case_bool_decide as Ha; simpl.
    + split; [done|]. intros _. by exists "".
    + by split.
Qed.

(** [imwrite] on a path [save_img] builds never raises for an image. *)
Lemma imwrite_save_path {F} folder k (f : F) os :
  imwrite (save_path folder k) (Some f) os =
    (Ok (dir_exists (os_dirs os) (dir_of folder)), write_effect (save_path folder k) f os).
Proof. unfold imwrite. by rewrite save_path_has_encoder, dir_of_save_path. Qed.

(** ** The output folder *)

(** C8. [save_img] puts [f"{folder}frame{index}.jpg"] inside [folder]
    exactly when [folder] is empty or ends with [/]: for a folder such as
    [output/frames] the images are written beside it, in [output/], as
    [framesframe1.jpg], ... *)
Theorem save_path_in_folder (folder : string) (k : Z) :
  dir_of (save_path folder k) = folder <-> folder = "" \/ exists d, folder = d ++ "/".
Proof.
  rewrite dir_of_save_path. split.
  - intros Hd. destruct (dir_of_shape folder) as [H1 H2].
    destruct (str_mem "/"%char folder); [right|left].
    + destruct (H2 eq_refl) as [d Hd']. exists d. congruence.
    + rewrite <- Hd. by apply H1.
  - intros [->|[d ->]]; [done|]. apply dir_of_trailing_slash.
Qed.

End FileSystem.
