(* ===== verification/VideoCapture.v ===== *)
(** * The video source: [cv2.VideoCapture]

    The script uses one operation of the capture, [cap.read()] (lines
    14 and 27), which returns a pair [(success, img)] and advances the
    capture.  [VideoCapture] states that operation on an abstract
    capture state; [VideoCaptureOk] states what OpenCV promises of it
    ([success] is [True] exactly when an image is returned), and
    [FiniteCapture] adds a measure that a successful read decreases,
    which a video file has and a live camera has not.  The loop of the
    script is proved against these classes; [file_capture] is the
    instance for a video file, a finite list of decoded frames. *)

From S2P Require Import Prelude.

Module VideoCapture.

Class VideoCapture (C F : Type) := vc_read : C -> (bool * option F) * C.

Class VideoCaptureOk (C F : Type) `{!VideoCapture C F} :=
  vc_read_success : forall c, (vc_read c).1.1 = bool_decide (is_Some (vc_read c).1.2).

Class FiniteCapture (C F : Type) `{!VideoCapture C F} := {
  vc_remaining : C -> nat;
  vc_read_decreases : forall c,
    (vc_read c).1.1 = true -> vc_remaining (vc_read c).2 < vc_remaining c
}.

(** A video file: the frames not yet read.  [read()] returns the next
    frame, or [(False, None)] at the end of the stream. *)
Definition file_read {F} (c : list F) : (bool * option F) * list F :=
  match c with
  | [] => ((false, None), [])
  | f :: c' => ((true, Some f), c')
  end.

#[export] Instance file_capture F : VideoCapture (list F) F := file_read.

#[export] Instance file_capture_ok F : VideoCaptureOk (list F) F.
Proof. intros [|f c]; reflexivity. Qed.

(** A read that succeeds consumes one frame of the file. *)
#[export] Instance file_capture_finite F : FiniteCapture (list F) F := {
  vc_remaining := length;
  vc_read_decreases := ltac:(intros [|f c]; simpl; [discriminate | lia])
}.

(** A live camera: the frames it will deliver, indexed by time, and the
    current time.  A read returns the current frame and advances; a
    camera that delivers a frame at every instant never ends. *)
Record Camera (F : Type) := mkCamera { cam_frames : nat -> option F; cam_time : nat }.
Arguments mkCamera {F}.
Arguments cam_frames {F}.
Arguments cam_time {F}.

Definition camera_read {F} (c : Camera F) : (bool * option F) * Camera F :=
  match cam_frames c (cam_time c) with
  | Some f => ((true, Some f), mkCamera (cam_frames c) (S (cam_time c)))
  | None => ((false, None), c)
  end.

#[export] Instance camera_capture F : VideoCapture (Camera F) F := camera_read.

#[export] Instance camera_capture_ok F : VideoCaptureOk (Camera F) F.
Proof. intros c. unfold vc_read, camera_capture, camera_read. by case_match. Qed.

(** [cv2.VideoCapture(path)] on a file system whose video files decode
    to the given frames: a path that does not open gives a capture whose
    first read fails. *)
Definition vc_open {F} (videos : gmap string (list F)) (path : string) : list F :=
  default [] (videos !! path).

End VideoCapture.
