(* ===== verification/Sampler.v ===== *)
(** * The frame sampler: src/getting_images_from_video.py, lines 13-33

    Two modules.  [SamplerLoop] is the script itself: its module
    globals [cap], [success], [img] and [frame_number] are the fields of
    [State], beside the world [Os] the script acts on; [args] (lines
    4-11) is the record [Config].  Each statement is one operation of
    the monad [PyM State], composed in the order of the source:
    [loop_body] is lines 23-30, [run_loop] the [while success:] loop of
    line 22, and [script] the whole program from line 13 on.  The loop
    is also a step relation [loop_step], the state machine READING/DONE
    of the specification.  Its facts hold for every capture: termination
    on a finite one, and the absence of exceptions on any capture that
    honours [read()]'s contract.

    [SamplerSpec] is what the script computes, stated on the
    observables (the images on disk, the ordered log of writes and
    prints, standard output), and the refinement theorem that the
    script computes it on a video file.  The proofs go through
    [frames_effect], the effect of the loop as a fold over the frames
    read.  [state_after] is the closed form of the loop's state after
    [k] iterations on a video file; [capture_after] is its counterpart
    on any capture, a live camera included, over the frames the capture
    delivers ([delivered]). *)

From S2P Require Import Prelude PyStr FileSystem VideoCapture.
Import PyStr FileSystem VideoCapture.

Open Scope Z_scope.
Open Scope string_scope.

Module SamplerLoop.

(** The namespace [args] returned by [parser.parse_args()] (line 11). *)
Record Config := mkConfig {
  input_video_path : string;
  frame_rate : Z;
  output_frames_folder_path : string
}.

(** The two phases of the loop: [READING] while [success] holds,
    [DONE] once a read has failed. *)
Inductive Phase := READING | DONE.

Section Script.
Context {C F : Type} `{!VideoCapture C F}.

(** The script's globals and the world. *)
Record State := mkState {
  st_os : Os F;
  st_cap : C;
  st_success : bool;
  st_img : option F;
  st_frame_number : Z
}.

Definition set_os (os : Os F) (st : State) : State :=
  mkState os (st_cap st) (st_success st) (st_img st) (st_frame_number st).

Definition set_frame_number (n : Z) (st : State) : State :=
  mkState (st_os st) (st_cap st) (st_success st) (st_img st) n.

(** [success, img = cap.read()]: the capture advances and both globals
    are assigned. *)
Definition set_read (r : (bool * option F) * C) (st : State) : State :=
  mkState (st_os st) r.2 r.1.1 r.1.2 (st_frame_number st).

Definition phase (st : State) : Phase := if st_success st then READING else DONE.

(** Run an action of the world inside the script. *)
Definition on_os {A} (m : Os F -> Outcome A * Os F) : PyM State A :=
  fun st => let '(r, os') := m (st_os st) in (r, set_os os' st).

Definition print (line : string) : PyM State unit :=
  on_os (fun os => (Ok tt, py_print line os)).

(** [success, img = cap.read()] (lines 14 and 27). *)
Definition cap_read : PyM State unit :=
  py_modify (fun st => set_read (vc_read (st_cap st)) st).

(** [save_img(folder, index, img)] (lines 18-19); the value that
    [cv2.imwrite] returns is dropped. *)
Definition save_img (folder : string) (index : Z) (img : option F) : PyM State unit :=
  _ ← on_os (imwrite (save_path folder index) img); mret tt.

(** The f-strings of lines 30 and 33. *)
Definition progress_line (n : Z) : string := py_str_int n ++ " frames stored!".
Definition final_line (n : Z) : string := "Finally all " ++ py_str_int n ++ " frames stored!".

(** The body of the [while] loop, lines 23-30. *)
Definition loop_body (args : Config) : PyM State unit :=
  py_modify (fun st => set_frame_number (st_frame_number st + 1) st);;
  n ← py_gets st_frame_number;
  m ← (n %% frame_rate args)%py;
  success ← py_gets st_success;
  (if bool_decide (m = 0) && success then
     index ← (n // frame_rate args)%py;
     img ← py_gets st_img;
     save_img (output_frames_folder_path args) index img
   else mret tt);;
  cap_read;;
  n' ← py_gets st_frame_number;
  m' ← (n' %% (100 * frame_rate args))%py;
  if bool_decide (m' = 0) then
    q ← (n' // frame_rate args)%py;
    print (progress_line q)
  else mret tt.

(** [while success: ...] (line 22), with fuel bounding the number of
    iterations. *)
Fixpoint run_loop (args : Config) (fuel : nat) : PyM State unit :=
  py_gets st_success ≫= fun success : bool =>
  if success then
    match fuel with
    | O => py_fuel_out
    | S fuel' => loop_body args;; run_loop args fuel'
    end
  else mret tt.

(** One iteration of the loop as a transition of the state machine. *)
Inductive loop_step (args : Config) : State -> State -> Prop :=
  | loop_step_intro st st' :
      st_success st = true ->
      loop_body args st = (Ok tt, st') ->
      loop_step args st st'.

(** The states the loop reaches from [st0]. *)
Inductive reachable (args : Config) (st0 : State) : State -> Prop :=
  | reach_start : reachable args st0 st0
  | reach_step st st' :
      reachable args st0 st -> loop_step args st st' -> reachable args st0 st'.

(** The globals [success] and [img] agree, as [cap.read()] leaves them:
    [success] holds exactly when an image is held. *)
Definition read_consistent (st : State) : bool :=
  eqb (st_success st) (bool_decide (is_Some (st_img st))).
End Script.

Arguments State : clear implicits.

Section FileScript.
Context {F : Type}.

Definition set_cap (c : list F) (st : State (list F) F) : State (list F) F :=
  mkState (st_os st) c (st_success st) (st_img st) (st_frame_number st).

(** [cap = cv2.VideoCapture(args.input_video_path)] (line 13). *)
Definition open_capture (path : string) : PyM (State (list F) F) unit :=
  py_modify (fun st => set_cap (vc_open (os_videos (st_os st)) path) st).

(** The script from line 13 to line 33. *)
Definition script (args : Config) (fuel : nat) : PyM (State (list F) F) unit :=
  open_capture (input_video_path args);;
  cap_read;;
  py_modify (set_frame_number 0);;
  run_loop args fuel;;
  n ← py_gets st_frame_number;
  q ← (n // frame_rate args)%py;
  print (final_line q).

(** The state before line 13: the globals are not bound yet, and the
    script assigns each of them before reading it. *)
Definition init_state (os : Os F) : State (list F) F := mkState os [] false None 0.

(** Running the script on a world. *)
Definition run_script (args : Config) (fuel : nat) (os : Os F) :
    Outcome unit * State (list F) F :=
  script args fuel (init_state os).
End FileScript.

(** ** Facts about the loop for every capture *)

(** Unfold one iteration down to the world's operations. *)
Ltac body_unfold :=
  unfold loop_body, save_img, print, on_os, cap_read, py_floordiv, py_mod,
    set_read, set_os, set_frame_number in *; py_unfold; simpl in *.

Section LoopFacts.
Context {C F : Type} `{!VideoCapture C F}.
Implicit Types (st : State C F) (args : Config).

(** A zero rate raises at line 25, after the counter was bumped. *)
Lemma loop_body_zero_rate args st :
  frame_rate args = 0 ->
  loop_body args st = (Raised ZeroDivisionError, set_frame_number (st_frame_number st + 1) st).
Proof. intros Hr. body_unfold. by rewrite Hr. Qed.

(** An iteration that returns reads the capture exactly once and bumps
    the counter by one. *)
Lemma loop_body_ok args st st' :
  loop_body args st = (Ok tt, st') ->
  st_cap st' = (vc_read (st_cap st)).2 /\
  st_success st' = (vc_read (st_cap st)).1.1 /\
  st_img st' = (vc_read (st_cap st)).1.2 /\
  st_frame_number st' = st_frame_number st + 1.
Proof.
  destruct st as [os c ok img n]. body_unfold.
  destruct (Z.eqb (frame_rate args) 0); [intros [=]|].
  repeat case_match; simplify_eq/=; intros [= <-]; simpl; auto.
Qed.

(** The body never runs out of fuel: only the loop does. *)
Lemma loop_body_not_out_of_fuel args st : (loop_body args st).1 <> OutOfFuel.
Proof.
  destruct st as [os c ok img n]. body_unfold.
  destruct (Z.eqb (frame_rate args) 0); [done|].
  repeat case_match; simplify_eq/=; try done.
  match goal with H : imwrite _ _ _ = (OutOfFuel, _) |- _ =>
    apply (f_equal fst) in H; by apply imwrite_not_out_of_fuel in H end.
Qed.

(** In state DONE the loop does nothing. *)
Lemma run_loop_done args fuel st :
  st_success st = false -> run_loop args fuel st = (Ok tt, st).
Proof. intros H. destruct fuel; simpl; py_unfold; by rewrite H. Qed.

Lemma run_loop_step args fuel st :
  st_success st = true ->
  run_loop args (S fuel) st = (loop_body args;; run_loop args fuel) st.
Proof. intros H. simpl. py_unfold. by rewrite H. Qed.
End LoopFacts.

Section Termination.
Context {C F : Type} `{!VideoCapture C F} `{!FiniteCapture C F}.

(** An iteration that returns leaves either state DONE or a capture
    with fewer frames left. *)
Lemma loop_body_progress args (st st' : State C F) :
  loop_body args st = (Ok tt, st') ->
  st_success st' = false \/ (vc_remaining (st_cap st') < vc_remaining (st_cap st))%nat.
Proof.
  intros (Hc & Hs & _ & _)%loop_body_ok. rewrite Hc, Hs.
  destruct (vc_read (st_cap st)).1.1 eqn:E; [right | by left].
  by apply vc_read_decreases.
Qed.

(** C9. The [while success:] loop terminates on every finite capture:
    with more fuel than frames left it returns or raises, and never
    runs out of fuel. *)
Theorem run_loop_terminates args fuel (st : State C F) :
  (vc_remaining (st_cap st) < fuel)%nat -> (run_loop args fuel st).1 <> OutOfFuel.
Proof.
  revert st. induction fuel as [|fuel IH]; intros st Hf; [lia|].
  destruct (st_success st) eqn:Hs; [|by rewrite run_loop_done].
  rewrite run_loop_step, bind_run by done.
  pose proof (loop_body_not_out_of_fuel args st) as Hnf.
  destruct (loop_body args st) as [[[]|e|] st'] eqn:Hb; simpl in *; try done.
  destruct (loop_body_progress args st st' Hb) as [Hd|Hd].
  - by rewrite run_loop_done.
  - apply IH. lia.
Qed.

(** The loop returns only in state DONE. *)
Lemma run_loop_ok_done args fuel (st st' : State C F) :
  run_loop args fuel st = (Ok tt, st') -> st_success st' = false.
Proof.
  revert st. induction fuel as [|fuel IH]; intros st.
  - destruct (st_success st) eqn:Hs; [simpl; py_unfold; by rewrite Hs|].
    rewrite run_loop_done by done. by intros [= <-].
  - destruct (st_success st) eqn:Hs; [|rewrite run_loop_done by done; by intros [= <-]].
    rewrite run_loop_step, bind_run by done.
    destruct (loop_body args st) as [[[]|e|] st''] eqn:Hb; [apply IH|done|done].
Qed.
End Termination.

Section Invariant.
Context {C F : Type} `{!VideoCapture C F} `{!VideoCaptureOk C F}.
Implicit Types (st : State C F) (args : Config).

Lemma read_consistent_iff st :
  read_consistent st = true <-> (st_success st = true <-> is_Some (st_img st)).
Proof.
  unfold read_consistent. destruct (st_success st), (st_img st); simpl; split;
    intuition (try done); by destruct H1.
Qed.

(** With a non-zero rate and an image in hand whenever [success] holds,
    an iteration returns: [imwrite] is only called with an image. *)
Lemma loop_body_returns args st :
  frame_rate args <> 0 -> (st_success st = true -> is_Some (st_img st)) ->
  (loop_body args st).1 = Ok tt.
Proof.
  intros Hr Himg. assert (Hr100 : 100 * frame_rate args <> 0) by lia.
  destruct st as [os c [|] img n]; simpl in Himg; body_unfold;
    rewrite (proj2 (Z.eqb_neq _ _) Hr), (proj2 (Z.eqb_neq _ _) Hr100); simpl;
    rewrite ?andb_true_r, ?andb_false_r.
  - destruct (bool_decide _); simpl;
      [destruct Himg as [f ->]; [done|]; simpl; rewrite ?save_path_has_encoder; simpl|];
      by destruct (bool_decide _).
  - by destruct (bool_decide _).
Qed.

(** A read leaves the globals consistent. *)
Lemma loop_body_read_consistent args st st' :
  loop_body args st = (Ok tt, st') -> read_consistent st' = true.
Proof.
  intros (_ & Hs & Hi & _)%loop_body_ok. unfold read_consistent.
  rewrite Hs, Hi, vc_read_success. apply eqb_reflx.
Qed.

(** C14. On any capture that honours [read()]'s contract (a live camera
    included), with a non-zero [frame_rate] the loop never raises:
    every call of [cv2.imwrite] it makes has an image. *)
Theorem run_loop_no_raise args fuel st e :
  frame_rate args <> 0 -> read_consistent st = true ->
  (run_loop args fuel st).1 <> Raised e.
Proof.
  intros Hr. revert st. induction fuel as [|fuel IH]; intros st Hc.
  - destruct (st_success st) eqn:Hs; [simpl; py_unfold; by rewrite Hs|].
    by rewrite run_loop_done.
  - destruct (st_success st) eqn:Hs; [|by rewrite run_loop_done].
    rewrite run_loop_step, bind_run by done.
    assert (Hok : (loop_body args st).1 = Ok tt).
    { apply loop_body_returns; [done|]. by apply read_consistent_iff. }
    destruct (loop_body args st) as [o st'] eqn:Hb; simpl in Hok; subst o.
    apply IH. by eapply loop_body_read_consistent.
Qed.
End Invariant.

End SamplerLoop.

Import SamplerLoop.

Module SamplerSpec.

#[local] Instance save_path_folder_inj folder : Inj eq eq (save_path folder) :=
  save_path_inj folder.

Section Refinement.
Context {F : Type}.
Variable args : Config.

Local Abbreviation r := (frame_rate args).
Local Abbreviation folder := (output_frames_folder_path args).

(** The effect on the world of the frame numbered [j] (lines 25-30). *)
Definition frame_effect (j : Z) (f : F) (os : Os F) : Os F :=
  let os1 := if bool_decide (j mod r = 0) then write_effect (save_path folder (j / r)) f os
             else os in
  if bool_decide (j mod (100 * r) = 0) then py_print (progress_line (j / r)) os1 else os1.

(** The frames [l] numbered from [i + 1] on, in order. *)
Fixpoint frames_effect (i : Z) (l : list F) (os : Os F) : Os F :=
  match l with
  | [] => os
  | f :: l' => frames_effect (i + 1) l' (frame_effect (i + 1) f os)
  end.

(** ** The specification *)

(** The (index, frame) pairs saved from the frames [l]: the frame
    numbered [j] (from 1) is saved under index [j // r] when [r]
    divides [j]. *)
Definition saves (l : list F) : list (Z * F) :=
  omap (fun j => if bool_decide (j mod r = 0)
                 then (fun f => (j / r, f)) <$> l !! Z.to_nat (j - 1) else None)
       (seqZ 1 (Z.of_nat (length l))).

(** The events of the frame numbered [j], when [imwrite] returns [w]. *)
Definition frame_events (w : bool) (j : Z) : list IoEvent :=
  ((if bool_decide (j mod r = 0) then [EvWrite (save_path folder (j / r)) w] else []) ++
   (if bool_decide (j mod (100 * r) = 0) then [EvPrint (progress_line (j / r))] else []))%list.

(** The events of the frames numbered [1] to [T]. *)
Definition spec_log (w : bool) (T : Z) : list IoEvent :=
  concat (map (frame_events w) (seqZ 1 T)).

(** The files after storing the (index, frame) pairs [kfs] in order. *)
Definition store (files : gmap string F) (kfs : list (Z * F)) : gmap string F :=
  insert_all ((fun kf => (save_path folder kf.1, kf.2)) <$> kfs) files.

(** [imwrite] writes into the output folder of [os]. *)
Definition output_writable (os : Os F) : bool := dir_exists (os_dirs os) (dir_of folder).

(** The world after the loop has run over the frames [l]. *)
Definition spec_world (l : list F) (os : Os F) : Os F :=
  let w := output_writable os in
  mkOs (if w then store (os_files os) (saves l) else os_files os)
       (os_dirs os) (os_videos os)
       (os_log os ++ spec_log w (Z.of_nat (length l)))%list.

(** What a run of the script leaves: the files on disk, the lines on
    standard output, and the write attempts with what [imwrite]
    returned, in order. *)
Definition run_files (fuel : nat) (os : Os F) : gmap string F :=
  os_files (st_os (run_script args fuel os).2).
Definition run_stdout (fuel : nat) (os : Os F) : list string :=
  stdout_of (os_log (st_os (run_script args fuel os).2)).
Definition run_writes (fuel : nat) (os : Os F) : list (string * bool) :=
  writes_of (os_log (st_os (run_script args fuel os).2)).

(** The state of the loop on a video file after [k] iterations, started
    with the frame [f] in hand, the frames [rest] left in the capture
    and the counter at [i]. *)
Definition state_after (os : Os F) (f : F) (rest : list F) (i : Z) (k : nat) :
    State (list F) F :=
  mkState (frames_effect i (take k (f :: rest)) os) (drop k rest)
          (bool_decide (k <= length rest)%nat) ((f :: rest) !! k) (i + Z.of_nat k).

Hypothesis Hr : r <> 0.

(** One iteration with an image in hand. *)
Lemma loop_body_frame {C} `{!VideoCapture C F} os (c : C) f n :
  loop_body args (mkState os c true (Some f) n) =
    (Ok tt, mkState (frame_effect (n + 1) f os)
                    (vc_read c).2 (vc_read c).1.1 (vc_read c).1.2 (n + 1)).
Proof.
  assert (Hr100 : 100 * r <> 0) by lia.
  unfold frame_effect. body_unfold.
  rewrite (proj2 (Z.eqb_neq _ _) Hr), (proj2 (Z.eqb_neq _ _) Hr100). simpl.
  rewrite andb_true_r.
  destruct (bool_decide ((n + 1) mod r = 0)); simpl; rewrite ?save_path_has_encoder; simpl;
    destruct (bool_decide ((n + 1) mod (100 * r) = 0)); reflexivity.
Qed.

(** The loop on a video file with the frame [f] in hand and the frames
    [rest] left: it processes [f :: rest] and stops in state DONE. *)
Lemma run_loop_file fuel os f (rest : list F) i :
  (length rest < fuel)%nat ->
  run_loop args fuel (mkState os rest true (Some f) i) =
    (Ok tt, mkState (frames_effect i (f :: rest) os) [] false None
                    (i + 1 + Z.of_nat (length rest))).
Proof.
  revert fuel os f i. induction rest as [|g rest IH]; intros fuel os f i Hf;
    (destruct fuel as [|fuel]; [simpl in Hf; lia|]);
    rewrite run_loop_step, bind_run, loop_body_frame by done; simpl.
  - rewrite run_loop_done by done. do 2 f_equal. lia.
  - rewrite IH by (simpl in Hf; lia). simpl. do 2 f_equal. lia.
Qed.

(** The script on a world whose input video decodes to [l]. *)
Lemma run_script_frames fuel (os : Os F) :
  let l := vc_open (os_videos os) (input_video_path args) in
  (length l <= fuel)%nat ->
  run_script args fuel os =
    (Ok tt, mkState (py_print (final_line (Z.of_nat (length l) / r)) (frames_effect 0 l os))
                    [] false None (Z.of_nat (length l))).
Proof.
  intros l Hf. unfold run_script, script, open_capture, cap_read, print, on_os.
  py_unfold. unfold set_read, set_cap, set_frame_number, set_os. simpl. fold l.
  destruct l as [|f rest]; simpl.
  - rewrite run_loop_done by done. simpl. by rewrite floordiv_run.
  - rewrite run_loop_file by (simpl in Hf; lia). simpl.
    rewrite floordiv_run by done. simpl. replace (0 + 1 + Z.of_nat (length rest)) with (Z.of_nat (S (length rest))) by lia.
    reflexivity.
Qed.
(** ** From the fold to the specification *)

Lemma frames_effect_snoc i l f os :
  frames_effect i (l ++ [f])%list os =
    frame_effect (i + Z.of_nat (length l) + 1) f (frames_effect i l os).
Proof.
  revert i os. induction l as [|g l IH]; intros i os; simpl.
  - by rewrite Z.add_0_r.
  - rewrite IH. do 2 f_equal. lia.
Qed.

(** One iteration of the loop moves the closed form one frame on. *)
Lemma loop_body_state_after os f (rest : list F) i k :
  (k <= length rest)%nat ->
  loop_body args (state_after os f rest i k) = (Ok tt, state_after os f rest i (S k)).
Proof.
  intros Hk. destruct (lookup_lt_is_Some_2 (f :: rest) k ltac:(simpl; lia)) as [g Hg].
  unfold state_after. rewrite Hg, bool_decide_true by lia. rewrite loop_body_frame.
  rewrite (take_S_r _ _ _ Hg), frames_effect_snoc, length_take. simpl length.
  replace (i + Z.of_nat (min k (S (length rest))) + 1) with (i + Z.of_nat (S k)) by lia.
  replace (i + Z.of_nat k + 1) with (i + Z.of_nat (S k)) by lia.
  destruct (drop k rest) as [|h t] eqn:Hd; simpl.
  - assert (length rest <= k)%nat by (apply length_zero_iff_nil in Hd; rewrite length_drop in Hd; lia).
    rewrite drop_ge, lookup_ge_None_2, bool_decide_false by lia. done.
  - assert (Hh : rest !! k = Some h) by (rewrite <- (Nat.add_0_r k), <- lookup_drop, Hd; done).
    assert (Ht : drop (S k) rest = t).
    { rewrite <- Nat.add_1_r, <- drop_drop, Hd. done. }
    rewrite Ht, Hh, bool_decide_true; [done|].
    apply lookup_lt_Some in Hh. lia.
Qed.

Lemma state_after_0 os f (rest : list F) i :
  state_after os f rest i 0 = mkState os rest true (Some f) i.
Proof. unfold state_after. simpl. by rewrite Z.add_0_r. Qed.

(** C12. The states the loop reaches on a video file, started with the
    frame [f] in hand and the frames [rest] left, are exactly the closed
    forms [state_after k] for [k] up to [length rest + 1]: after [k]
    iterations the counter has grown by [k], the first [k] frames have
    been processed, [img] holds frame [k] and [success] holds until the
    last frame was read. *)
Theorem reachable_state_after os f (rest : list F) i st :
  reachable args (mkState os rest true (Some f) i) st <->
  exists k, (k <= S (length rest))%nat /\ st = state_after os f rest i k.
Proof.
  rewrite <- state_after_0. split.
  - induction 1 as [|st st' _ (k & Hk & ->) Hs]; [by exists 0%nat; split; [lia|]|].
    inversion Hs as [? ? Hsucc Hb]; subst. simpl in Hsucc.
    apply bool_decide_eq_true_1 in Hsucc.
    rewrite loop_body_state_after in Hb by done. injection Hb as <-.
    exists (S k). split; [lia|done].
  - intros (k & Hk & ->). induction k as [|k IH]; [constructor|].
    apply reach_step with (state_after os f rest i k); [apply IH; lia|].
    constructor; [simpl; apply bool_decide_eq_true_2; lia|].
    apply loop_body_state_after. lia.
Qed.

Lemma saves_snoc l f :
  saves (l ++ [f])%list =
    (saves l ++ (if bool_decide ((Z.of_nat (length l) + 1) mod r = 0)
                 then [((Z.of_nat (length l) + 1) / r, f)] else []))%list.
Proof.
  unfold saves. rewrite length_app. simpl. rewrite Nat.add_1_r, seqZ_1_snoc, omap_app.
  f_equal.
  - apply omap_ext_in. intros j Hj%elem_of_seqZ.
    rewrite lookup_app_l by lia. done.
  - simpl. replace (Z.to_nat (Z.of_nat (length l) + 1 - 1)) with (length l) by lia.
    rewrite list_lookup_middle by done. by case_bool_decide.
Qed.

Lemma spec_log_snoc w (n : nat) :
  spec_log w (Z.of_nat (S n)) = (spec_log w (Z.of_nat n) ++ frame_events w (Z.of_nat n + 1))%list.
Proof. unfold spec_log. rewrite seqZ_1_snoc, map_app, concat_app. simpl. by rewrite app_nil_r. Qed.

Lemma store_snoc files kfs k f :
  store files (kfs ++ [(k, f)])%list = <[save_path folder k := f]> (store files kfs).
Proof. unfold store, insert_all. by rewrite fmap_app, fold_left_app. Qed.

(** The loop's fold computes the specification. *)
Lemma frames_effect_spec l os : frames_effect 0 l os = spec_world l os.
Proof.
  induction l as [|f l IH] using rev_ind.
  - destruct os as [files dirs videos log]. unfold spec_world. simpl.
    rewrite app_nil_r. by destruct (output_writable _).
  - rewrite frames_effect_snoc, IH, Z.add_0_l.
    unfold spec_world. rewrite saves_snoc, length_app. simpl.
    rewrite Nat.add_1_r, spec_log_snoc.
    unfold frame_effect, frame_events, output_writable, write_effect, py_print, log_event, set_files.
    simpl. rewrite !dir_of_save_path.
    destruct (dir_exists (os_dirs os) (dir_of folder)) eqn:W;
      (destruct (bool_decide ((Z.of_nat (length l) + 1) mod r = 0)));
      (destruct (bool_decide ((Z.of_nat (length l) + 1) mod (100 * r) = 0)));
      simpl; rewrite ?app_nil_r, ?store_snoc, <- ?app_assoc; simpl; rewrite ?W; try done.
Qed.
(** ** The refinement theorem *)

(** C1. For every nonzero rate, the script run on a world whose input
    video decodes to the frames [l] (enough fuel given) returns
    normally, in state DONE with the counter at [T = length l], and
    leaves the world of the specification followed by the final line
    [Finally all T // rate frames stored!]. *)
Theorem script_refines_spec fuel (os : Os F) :
  (length (vc_open (os_videos os) (input_video_path args)) <= fuel)%nat ->
  run_script args fuel os =
    let l := vc_open (os_videos os) (input_video_path args) in
    (Ok tt, mkState (py_print (final_line (Z.of_nat (length l) / r)) (spec_world l os))
                    [] false None (Z.of_nat (length l))).
Proof. intros Hf. rewrite run_script_frames by done. by rewrite frames_effect_spec. Qed.
End Refinement.

Section Observables.
Context {F : Type}.
Variable args : Config.

Local Abbreviation r := (frame_rate args).
Local Abbreviation folder := (output_frames_folder_path args).

(** Standard output of the loop: the progress line of every frame
    number that [100 * r] divides. *)
Lemma stdout_of_spec_log w T :
  stdout_of (spec_log args w T) =
    omap (fun j => if bool_decide (j mod (100 * r) = 0)
                   then Some (progress_line (j / r)) else None) (seqZ 1 T).
Proof.
  unfold spec_log. induction (seqZ 1 T) as [|j js IH]; [done|].
  rewrite omap_cons. cbn [map concat]. rewrite stdout_of_app, IH.
  unfold frame_events. by do 2 case_bool_decide.
Qed.

(** The write attempts of the loop: one per frame number that [r]
    divides, each returning [w]. *)
Lemma writes_of_spec_log w T :
  writes_of (spec_log args w T) =
    omap (fun j => if bool_decide (j mod r = 0)
                   then Some (save_path folder (j / r), w) else None) (seqZ 1 T).
Proof.
  unfold spec_log. induction (seqZ 1 T) as [|j js IH]; [done|].
  rewrite omap_cons. cbn [map concat]. rewrite writes_of_app, IH.
  unfold frame_events. by do 2 case_bool_decide.
Qed.

(** Distinct indices are stored under distinct paths. *)
Lemma store_keys_nodup (kfs : list (Z * F)) :
  NoDup kfs.*1 -> NoDup (((fun kf => (save_path folder kf.1, kf.2)) <$> kfs).*1).
Proof.
  intros Hnd. rewrite <- list_fmap_compose.
  change (NoDup ((save_path folder ∘ fst) <$> kfs)).
  rewrite list_fmap_compose. by apply NoDup_fmap_2; [apply _|].
Qed.

(** The file names of the script's writes, the last line it prints
    and the files it leaves, read off the refinement theorem. *)
Lemma script_world fuel (os : Os F) :
  r <> 0 ->
  (length (vc_open (os_videos os) (input_video_path args)) <= fuel)%nat ->
  let l := vc_open (os_videos os) (input_video_path args) in
  run_files args fuel os = os_files (spec_world args l os) /\
  run_stdout args fuel os =
    (stdout_of (os_log os) ++
     stdout_of (spec_log args (output_writable args os) (Z.of_nat (length l))) ++
     [final_line (Z.of_nat (length l) / r)])%list /\
  run_writes args fuel os =
    (writes_of (os_log os) ++
     writes_of (spec_log args (output_writable args os) (Z.of_nat (length l))))%list.
Proof.
  intros Hr Hf. unfold run_files, run_stdout, run_writes.
  rewrite run_script_frames, frames_effect_spec by done. simpl.
  rewrite !stdout_of_app, !writes_of_app, <- !app_assoc. split; [done|split; [reflexivity|]]. do 2 f_equal. apply app_nil_r.
Qed.

Section PositiveRate.
Hypothesis Hpos : 0 < r.

Lemma saves_pos (l : list F) :
  saves args l =
    omap (fun m => (fun f => (m, f)) <$> l !! Z.to_nat (m * r - 1))
         (seqZ 1 (Z.of_nat (length l) / r)).
Proof.
  unfold saves. rewrite (omap_seqZ_multiples _ r) by (try done; intros j Hj; by case_bool_decide).
  apply omap_ext_in. intros m _.
  rewrite bool_decide_true by (apply mod_mul_zero; lia).
  by rewrite div_mul_exact by lia.
Qed.

(** The frame numbered [m * r] exists for every index [m] up to
    [T / r]. *)
Lemma lookup_multiple (l : list F) m :
  m ∈ seqZ 1 (Z.of_nat (length l) / r) -> is_Some (l !! Z.to_nat (m * r - 1)).
Proof.
  intros Hm%elem_of_seqZ. apply lookup_lt_is_Some.
  pose proof (Z.mul_div_le (Z.of_nat (length l)) r Hpos). nia.
Qed.

(** With a positive rate, the indices of the saved frames are
    exactly [1, 2, ..., T // rate], in order, and the frame saved
    under index [k] is the frame numbered [k * rate]. *)
Lemma saves_positive_rate (l : list F) :
  (saves args l).*1 = seqZ 1 (Z.of_nat (length l) / r) /\
  (forall k f, (k, f) ∈ saves args l -> l !! Z.to_nat (k * r - 1) = Some f).
Proof.
  rewrite saves_pos. split.
  - rewrite list_fmap_omap, <- omap_Some_id. apply omap_ext_in. intros m Hm.
    destruct (lookup_multiple l m Hm) as [f ->]. done.
  - intros k f (m & Hm & Hkf)%list_elem_of_omap.
    apply fmap_Some in Hkf as (f' & Hl & [= -> ->]). done.
Qed.

(** With a positive rate, the progress lines are
    [100 frames stored!], [200 frames stored!], ..., one per
    multiple of [100 * rate] frames. *)
Lemma progress_lines_positive_rate w (n : nat) :
  stdout_of (spec_log args w (Z.of_nat n)) =
    map (fun m => progress_line (100 * m)) (seqZ 1 (Z.of_nat n / (100 * r))).
Proof.
  rewrite stdout_of_spec_log, (omap_seqZ_multiples _ (100 * r)) by
    (try lia; intros j Hj; by case_bool_decide).
  rewrite <- omap_Some_map. apply omap_ext_in. intros m _.
  rewrite bool_decide_true by (apply mod_mul_zero; lia).
  do 2 f_equal. rewrite Z.mul_assoc, Z.div_mul by lia. lia.
Qed.
Lemma files_written_count (l : list F) (os : Os F) :
  output_writable args os = true -> os_files os = ∅ ->
  size (os_files (spec_world args l os)) = Z.to_nat (Z.of_nat (length l) / r).
Proof.
  intros W E. simpl. rewrite W, E. unfold store.
  rewrite insert_all_size.
  - rewrite map_size_empty, length_fmap, <- (length_fmap fst).
    rewrite (proj1 (saves_positive_rate l)), length_seqZ. lia.
  - apply store_keys_nodup. rewrite (proj1 (saves_positive_rate l)). apply NoDup_seqZ.
  - intros k _. apply lookup_empty.
Qed.

(** C3. With a positive rate, an existing output folder and no image
    there before, the number the final line reports is the number
    of files the run leaves, [T // rate]. *)
Theorem final_report_matches_files fuel (os : Os F) :
  output_writable args os = true -> os_files os = ∅ ->
  (length (vc_open (os_videos os) (input_video_path args)) <= fuel)%nat ->
  last (run_stdout args fuel os) =
    Some (final_line (Z.of_nat (size (run_files args fuel os)))) /\
  size (run_files args fuel os) =
    Z.to_nat (Z.of_nat (length (vc_open (os_videos os) (input_video_path args))) / r).
Proof.
  intros W E Hf. destruct (script_world fuel os ltac:(lia) Hf) as (Hfiles & Hout & _).
  cbv zeta in *. rewrite Hout, Hfiles, files_written_count by done.
  rewrite app_assoc, last_snoc, Z2Nat.id by (apply Z.div_pos; lia). by split.
Qed.
Lemma saves_elem (l : list F) k :
  1 <= k <= Z.of_nat (length l) / r ->
  exists f, l !! Z.to_nat (k * r - 1) = Some f /\ (k, f) ∈ saves args l.
Proof.
  intros Hk. assert (Hm : k ∈ seqZ 1 (Z.of_nat (length l) / r)) by (apply elem_of_seqZ; lia).
  destruct (lookup_multiple l k Hm) as [f Hf]. exists f. split; [done|].
  rewrite saves_pos. apply list_elem_of_omap. exists k. by rewrite Hf.
Qed.

Lemma store_saves_lookup (l : list F) files k f :
  (k, f) ∈ saves args l -> store args files (saves args l) !! save_path folder k = Some f.
Proof.
  intros Hin. apply insert_all_lookup_in.
  - apply store_keys_nodup. rewrite (proj1 (saves_positive_rate l)). apply NoDup_seqZ.
  - apply list_elem_of_fmap. by exists (k, f).
Qed.

(** C2. With a positive rate and an existing output folder, the run
    writes [frame1.jpg], [frame2.jpg], ..., [frame<T // rate>.jpg]
    in this order, each once and each successfully, and the file
    [frame<k>.jpg] holds the frame numbered [k * rate]. *)
Theorem script_files_positive_rate fuel (os : Os F) :
  output_writable args os = true ->
  (length (vc_open (os_videos os) (input_video_path args)) <= fuel)%nat ->
  let l := vc_open (os_videos os) (input_video_path args) in
  run_writes args fuel os =
    (writes_of (os_log os) ++
     map (fun k => (save_path folder k, true)) (seqZ 1 (Z.of_nat (length l) / r)))%list /\
  (forall k, 1 <= k <= Z.of_nat (length l) / r ->
     run_files args fuel os !! save_path folder k = l !! Z.to_nat (k * r - 1)).
Proof.
  intros W Hf. destruct (script_world fuel os ltac:(lia) Hf) as (Hfiles & _ & Hw).
  cbv zeta in *. rewrite Hw, Hfiles, W. split.
  - rewrite writes_of_spec_log, (omap_seqZ_multiples _ r); [|lia|].
    2:{ intros j Hj. by case_bool_decide. }
    rewrite <- omap_Some_map. f_equal. apply omap_ext_in. intros k _.
    rewrite bool_decide_true by (apply mod_mul_zero; lia).
    by rewrite div_mul_exact by lia.
  - intros k Hk. simpl. rewrite W.
    destruct (saves_elem _ k Hk) as (f & -> & Hin). by apply store_saves_lookup.
Qed.

(** C4. With a positive rate, whether or not the folder exists, the
    run prints [100 frames stored!], [200 frames stored!], ...: one
    progress line per multiple of [100 * rate] frames, so
    [T // (100 * rate)] of them, then the final line. *)
Theorem script_stdout_positive_rate fuel (os : Os F) :
  (length (vc_open (os_videos os) (input_video_path args)) <= fuel)%nat ->
  let T := Z.of_nat (length (vc_open (os_videos os) (input_video_path args))) in
  run_stdout args fuel os =
    (stdout_of (os_log os) ++
     map (fun m => progress_line (100 * m)) (seqZ 1 (T / (100 * r))) ++
     [final_line (T / r)])%list.
Proof.
  intros Hf. destruct (script_world fuel os ltac:(lia) Hf) as (_ & Hout & _).
  cbv zeta in *. by rewrite Hout, progress_lines_positive_rate.
Qed.
End PositiveRate.
End Observables.

(** ** The loop on any capture *)

Section AnyCapture.
Context {C F : Type} `{!VideoCapture C F}.
Variable args : Config.

Local Abbreviation r := (frame_rate args).

(** The capture after [k] reads. *)
Definition nth_cap (c : C) (k : nat) : C := Nat.iter k (fun c => (vc_read c).2) c.

(** The frames that the first [k] reads of [c] deliver, up to the
    first read that fails. *)
Fixpoint delivered (c : C) (k : nat) : list F :=
  match k with
  | O => []
  | S k' => match (vc_read c).1.2 with
            | Some f => f :: delivered (vc_read c).2 k'
            | None => []
            end
  end.

(** The state of the loop after [k] iterations on the capture [c],
    started with the frame [f] in hand and the counter at 0. *)
Definition capture_after (os : Os F) (c : C) (f : F) (k : nat) : State C F :=
  let l := f :: delivered c k in
  mkState (frames_effect args 0 (take k l) os) (nth_cap c k)
          (bool_decide (is_Some (l !! k))) (l !! k) (Z.of_nat k).

Lemma delivered_S c k :
  delivered c (S k) =
    match (vc_read c).1.2 with Some f => f :: delivered (vc_read c).2 k | None => [] end.
Proof. reflexivity. Qed.

Lemma delivered_prefix c k : delivered c k = take k (delivered c (S k)).
Proof.
  revert c. induction k as [|k IH]; intros c; [done|].
  rewrite (delivered_S c k), (delivered_S c (S k)).
  destruct (vc_read c).1.2; [|done]. cbn [take]. by rewrite <- IH.
Qed.

Lemma delivered_length_le c k : (length (delivered c k) <= k)%nat.
Proof.
  revert c. induction k as [|k IH]; intros c; [done|].
  rewrite delivered_S. destruct (vc_read c).1.2; simpl; [|lia]. specialize (IH (vc_read c).2). lia.
Qed.

Lemma delivered_snoc c k :
  length (delivered c k) = k ->
  delivered c (S k) = (delivered c k ++ option_list (vc_read (nth_cap c k)).1.2)%list.
Proof.
  revert c. induction k as [|k IH]; intros c Hl.
  - simpl. by destruct (vc_read c).1.2.
  - rewrite (delivered_S c (S k)), (delivered_S c k) in *.
    destruct (vc_read c).1.2 as [g|]; [|done].
    simpl in Hl. injection Hl as Hl.
    rewrite (IH _ Hl). unfold nth_cap. by rewrite Nat.iter_succ_r.
Qed.

Lemma delivered_length_mono c k : (length (delivered c k) <= length (delivered c (S k)))%nat.
Proof. rewrite (delivered_prefix c k) at 1. rewrite length_take. lia. Qed.

Section Steps.
Hypothesis Hr : r <> 0.
Context `{!VideoCaptureOk C F}.

(** One iteration moves the closed form one frame on, whenever a frame
    is in hand. *)
Lemma loop_body_capture_after os c f k g :
  (f :: delivered c k) !! k = Some g ->
  loop_body args (capture_after os c f k) = (Ok tt, capture_after os c f (S k)).
Proof.
  intros Hg. assert (Hlen : length (delivered c k) = k).
  { apply lookup_lt_Some in Hg. simpl in Hg. pose proof (delivered_length_le c k). lia. }
  unfold capture_after at 1. rewrite Hg, bool_decide_true by done.
  rewrite (loop_body_frame args Hr). unfold capture_after. f_equal.
  rewrite (delivered_snoc c k Hlen).
  assert (Hl : f :: delivered c k = (take k (f :: delivered c k) ++ [g])%list).
  { rewrite <- (take_S_r _ _ _ Hg), take_ge; [done|simpl; lia]. }
  f_equal.
  - rewrite app_comm_cons. rewrite take_app_le. 2:{ simpl. lia. } rewrite (take_ge (f :: delivered c k) (S k)) by (simpl; lia).
    rewrite Hl at 2. rewrite frames_effect_snoc, length_take. simpl length.
    do 2 f_equal. lia.
  - rewrite vc_read_success. f_equal. f_equal.
    rewrite app_comm_cons, lookup_app_r by (simpl; lia). simpl. rewrite Hlen, Nat.sub_diag.
    by destruct (vc_read (nth_cap c k)).1.2.
  - rewrite app_comm_cons, lookup_app_r by (simpl; lia). simpl. rewrite Hlen, Nat.sub_diag.
    by destruct (vc_read (nth_cap c k)).1.2.
  - lia.
Qed.
(** Line 16 leaves the loop in the closed form of 0 iterations. *)
Lemma capture_after_0 os c f : capture_after os c f 0 = mkState os c true (Some f) 0.
Proof. reflexivity. Qed.

(** Every reachable state is a closed form, and every closed form whose
    reads before the last succeeded is reachable. *)
Lemma reachable_capture_after os c f st :
  reachable args (mkState os c true (Some f) 0) st ->
  exists k, (k <= S (length (delivered c k)))%nat /\ st = capture_after os c f k.
Proof.
  rewrite <- capture_after_0. induction 1 as [|st st' _ (k & Hk & ->) Hs].
  - exists 0%nat. split; [lia|done].
  - inversion Hs as [? ? Hsucc Hb]; subst. simpl in Hsucc.
    apply bool_decide_eq_true_1 in Hsucc as [g Hg].
    rewrite (loop_body_capture_after _ _ _ _ g Hg) in Hb. injection Hb as <-.
    exists (S k). split; [|done].
    apply lookup_lt_Some in Hg. simpl in Hg. pose proof (delivered_length_mono c k). lia.
Qed.

Lemma capture_after_reachable os c f k :
  (k <= S (length (delivered c k)))%nat ->
  reachable args (mkState os c true (Some f) 0) (capture_after os c f k).
Proof.
  rewrite <- capture_after_0. induction k as [|k IH]; intros Hk; [constructor|].
  assert (Hlen : length (delivered c k) = k).
  { rewrite (delivered_prefix c k), length_take. lia. }
  destruct (lookup_lt_is_Some_2 (f :: delivered c k) k) as [g Hg]; [simpl; lia|].
  apply reach_step with (capture_after os c f k); [apply IH; lia|].
  constructor; [unfold capture_after; simpl; by rewrite Hg|].
  by apply loop_body_capture_after with g.
Qed.
End Steps.
End AnyCapture.

(** C13. On every capture that honours [read()]'s contract (a live
    camera included), the states the loop reaches from the frame [f]
    in hand with the counter at 0 (line 16) are the closed forms: after
    [k] iterations the first [k] reads before the last have all
    succeeded, the counter is [k], the capture has been read [k] times
    ([nth_cap]), [img] holds what the [k]-th read returned, and the
    world is the world of the specification for the [k] frames
    processed so far: the same files, writes and progress lines. *)
Theorem reachable_any_capture {C F} `{!VideoCapture C F} `{!VideoCaptureOk C F} args os c (f : F) st :
  frame_rate args <> 0 ->
  reachable args (mkState os c true (Some f) 0) st ->
  exists k, (k <= S (length (delivered c k)))%nat /\
    st_os st = spec_world args (take k (f :: delivered c k)) os /\
    st_cap st = nth_cap c k /\ st_img st = (f :: delivered c k) !! k /\
    st_frame_number st = Z.of_nat k.
Proof.
  intros Hr Hst. destruct (reachable_capture_after args Hr os c f st Hst) as (k & Hk & ->).
  exists k. split; [done|]. simpl. by rewrite frames_effect_spec.
Qed.

Section LiveCamera.
Context {F : Type}.
Variable args : Config.

Local Abbreviation r := (frame_rate args).
Local Abbreviation folder := (output_frames_folder_path args).

Lemma camera_read_some (cam : Camera F) f :
  cam_frames cam (cam_time cam) = Some f ->
  vc_read cam = ((true, Some f), mkCamera (cam_frames cam) (S (cam_time cam))).
Proof. intros H. unfold vc_read, camera_capture, camera_read. by rewrite H. Qed.

(** A camera that delivers a frame at every instant delivers all of
    them, in order. *)
Lemma camera_delivered (cam : Camera F) k :
  (forall t, (cam_time cam <= t)%nat -> is_Some (cam_frames cam t)) ->
  length (delivered cam k) = k /\
  forall j, (j < k)%nat -> delivered cam k !! j = cam_frames cam (cam_time cam + j).
Proof.
  revert cam. induction k as [|k IH]; intros cam Hc; [split; [done|lia]|].
  destruct (Hc (cam_time cam) ltac:(lia)) as [f Hf].
  rewrite delivered_S, (camera_read_some cam f Hf). simpl.
  destruct (IH (mkCamera (cam_frames cam) (S (cam_time cam)))) as [Hl Hj];
    [intros t Ht; apply Hc; simpl in Ht; lia|].
  split; [by rewrite Hl|]. intros [|j] Hjk; simpl; [by rewrite Nat.add_0_r|].
  rewrite Hj by lia. simpl. f_equal. lia.
Qed.

(** C15. On a live camera that delivers a frame at every instant,
    with a positive rate and an existing output folder, the loop never
    stops saving: for every index [m >= 1] it reaches a state, still
    reading, in which [frame<m>.jpg] holds the frame the camera
    delivered at the [m * rate]-th read of the script. *)
Theorem camera_saves_every_index (cam : Camera F) (os : Os F) m :
  0 < r -> output_writable args os = true ->
  (forall t, (cam_time cam <= t)%nat -> is_Some (cam_frames cam t)) ->
  1 <= m ->
  exists st, reachable args (mkState os (vc_read cam).2 (vc_read cam).1.1 (vc_read cam).1.2 0) st /\
    st_success st = true /\
    os_files (st_os st) !! save_path folder m = cam_frames cam (cam_time cam + Z.to_nat (m * r) - 1).
Proof.
  intros Hpos W Hc Hm.
  destruct (Hc (cam_time cam) ltac:(lia)) as [f0 Hf0].
  rewrite (camera_read_some cam f0 Hf0). simpl.
  set (cam' := mkCamera (cam_frames cam) (S (cam_time cam))).
  destruct (camera_delivered cam' (Z.to_nat (m * r))) as [Hl Hj];
    [intros t Ht; apply Hc; simpl in Ht; lia|].
  set (k := Z.to_nat (m * r)) in *.
  exists (capture_after args os cam' f0 k).
  split; [apply (capture_after_reachable args ltac:(lia)); lia|].
  split; [apply bool_decide_eq_true_2, lookup_lt_is_Some; simpl; lia|].
  simpl st_os. rewrite frames_effect_spec.
  set (L := take k (f0 :: delivered cam' k)).
  assert (HL : length L = k) by (unfold L; rewrite length_take; simpl; lia).
  assert (Hmk : 1 <= m <= Z.of_nat (length L) / r).
  { rewrite HL. unfold k. rewrite Z2Nat.id, Z.div_mul by lia. lia. }
  destruct (saves_elem args Hpos L m Hmk) as (g & Hg & Hin).
  simpl. rewrite W, (store_saves_lookup args Hpos L _ m g Hin), <- Hg.
  assert (Hk1 : (1 <= k)%nat) by (unfold k; lia).
  replace (Z.to_nat (m * r - 1)) with (k - 1)%nat by lia.
  unfold L. rewrite lookup_take, decide_True by lia.
  destruct (k - 1)%nat as [|j] eqn:Ej; simpl.
  - rewrite <- Hf0. f_equal. lia.
  - rewrite Hj by lia. simpl. f_equal. lia.
Qed.
End LiveCamera.

(** ** The script outside its intended inputs: a zero or negative
    [--frame_rate] (the parser accepts both, line 6) and a missing
    output folder ([cv2.imwrite] returns [False], ignored at line 19). *)

Section Edge.
Context {F : Type}.
Variable args : Config.

Local Abbreviation r := (frame_rate args).
Local Abbreviation folder := (output_frames_folder_path args).
Local Abbreviation video os := (vc_open (os_videos os) (input_video_path args)).

(** ** Zero rate *)

(** C5. With [--frame_rate 0] the script raises [ZeroDivisionError]
    on every video: at line 25 on the first frame, or at line 33 when
    there is none.  It has written no file and printed nothing. *)
Theorem script_zero_rate fuel (os : Os F) :
  r = 0 -> (0 < fuel)%nat ->
  (run_script args fuel os).1 = Raised ZeroDivisionError /\
  run_files args fuel os = os_files os /\
  run_stdout args fuel os = stdout_of (os_log os) /\
  run_writes args fuel os = writes_of (os_log os).
Proof.
  intros Hr Hf. unfold run_files, run_stdout, run_writes, run_script, script, open_capture, cap_read, print, on_os.
  py_unfold. unfold set_read, set_cap, set_frame_number, set_os. simpl.
  destruct (video os) as [|f rest]; simpl.
  - rewrite run_loop_done by done. simpl. by rewrite Hr.
  - destruct fuel as [|fuel]; [lia|]. rewrite run_loop_step, bind_run by done.
    by rewrite loop_body_zero_rate by done.
Qed.

(** ** Missing output folder *)

(** C6. When the output folder does not exist, the run writes no file,
    every write it attempts returns [False], and it prints exactly
    what it prints when the folder exists, the final count included. *)
Theorem script_missing_folder fuel (os : Os F) :
  r <> 0 -> output_writable args os = false ->
  (length (video os) <= fuel)%nat ->
  run_files args fuel os = os_files os /\
  run_stdout args fuel os =
    (stdout_of (os_log os) ++ stdout_of (spec_log args true (Z.of_nat (length (video os)))) ++
     [final_line (Z.of_nat (length (video os)) / r)])%list /\
  (forall p b, (p, b) ∈ run_writes args fuel os ->
     (p, b) ∈ writes_of (os_log os) \/ b = false).
Proof.
  intros Hr W Hf. destruct (script_world args fuel os Hr Hf) as (Hfiles & Hout & Hw).
  cbv zeta in *. rewrite Hfiles, Hout, Hw, W, !stdout_of_spec_log. simpl. rewrite W.
  split; [done|split; [done|]].
  intros p b [Hin|Hin]%elem_of_app; [by left|right].
  rewrite writes_of_spec_log in Hin.
  apply list_elem_of_omap in Hin as (j & _ & Hj). case_bool_decide; naive_solver.
Qed.
(** ** Negative rate *)

Section NegativeRate.
Hypothesis Hneg : r < 0.

(** The comprehension over frame numbers keeps the multiples of
    [|r|], which [r] divides too. *)
Lemma omap_multiples_neg {B} (h : Z -> option B) (n : nat) :
  omap (fun j => if bool_decide (j mod r = 0) then h j else None) (seqZ 1 (Z.of_nat n)) =
    omap (fun m => h (- m * r)) (seqZ 1 (Z.of_nat n / - r)).
Proof.
  rewrite (omap_seqZ_multiples _ (- r)); [|lia|].
  2:{ intros j Hj. case_bool_decide; [|done].
      by pose proof (Z.mod_opp_r_z j r ltac:(lia) ltac:(done)). }
  apply omap_ext_in. intros m _. replace (m * - r) with (- m * r) by lia.
  by rewrite bool_decide_true by (apply mod_mul_zero; lia).
Qed.

(** C7. With a negative rate the script still writes one frame in
    every [|rate|], but under the negative indices
    [-1, -2, ..., -(T // |rate|)] ([frame-1.jpg], ...); its final
    line reports [T // rate], and unless [|rate|] divides [T] that is
    one less than minus the number of files it wrote. *)
Theorem script_negative_rate fuel (os : Os F) :
  (length (video os) <= fuel)%nat ->
  let T := Z.of_nat (length (video os)) in
  let writes := map (fun m => (save_path folder (- m), output_writable args os))
                    (seqZ 1 (T / - r)) in
  run_writes args fuel os = (writes_of (os_log os) ++ writes)%list /\
  last (run_stdout args fuel os) = Some (final_line (T / r)) /\
  (T mod r <> 0 -> T / r = - Z.of_nat (length writes) - 1).
Proof.
  intros Hf. destruct (script_world args fuel os ltac:(lia) Hf) as (_ & Hout & Hw).
  cbv zeta in *. rewrite Hw, Hout, writes_of_spec_log, omap_multiples_neg.
  split; [|split].
  - f_equal. rewrite <- omap_Some_map. apply omap_ext_in. intros m _.
    by rewrite div_mul_exact by lia.
  - by rewrite !app_assoc, last_snoc.
  - intros Hm. rewrite length_map, length_seqZ, Z2Nat.id by (apply Z.div_pos; lia).
    rewrite <- (Z.opp_involutive r) at 1. apply Z.div_opp_r_nz; [lia|].
    intros Hz. apply Hm. rewrite <- (Z.opp_involutive r). by apply Z.mod_opp_r_z; [lia|].
Qed.
End NegativeRate.
End Edge.

End SamplerSpec.
