(* ===== verification/Argparse.v ===== *)
(** * Command-line arguments: src/getting_images_from_video.py, lines 4-11

    The script builds an [argparse.ArgumentParser] with one positional
    and two options (lines 4-9) and calls [parser.parse_args()] (line
    11).  [parser_arguments] is the list of the three [add_argument]
    calls; [parse_args] is the parsing algorithm of CPython 3.11's
    [argparse] ([_parse_optional], [_get_option_tuples],
    [_parse_known_args] with [consume_optional] and
    [consume_positionals], [_get_values], [parse_args]) specialised to
    what these calls use: actions [store] and [help], [nargs] left at
    its default, [type=int] or no type, string and int defaults,
    [prefix_chars = "-"], [allow_abbrev = True].  Its outcome is the
    namespace, the exit of [--help], or the error that [parser.error]
    reports before [sys.exit(2)].  [config_of_ns] reads [args.*] off
    the namespace, and [main] runs the whole program. *)

From Stdlib Require Import Ascii String.
From S2P Require Import Prelude PyStr FileSystem VideoCapture Sampler.
Import PyStr FileSystem VideoCapture SamplerLoop.

Open Scope Z_scope.
Open Scope string_scope.

Module Argparse.

(** The values [argparse] stores: [None] (the default of a positional),
    a [str], an [int], or the empty list that [nargs=None] produces when
    its only string was the [--] that [_get_values] removes. *)
Inductive PyVal := VNone | VStr (s : string) | VInt (z : Z) | VEmptyList.

Inductive ArgType := TStr | TInt.

(** One [parser.add_argument(...)] call; [arg_flags] is empty for a
    positional. *)
Record Argument := mkArgument {
  arg_flags : list string;
  arg_dest : string;
  arg_type : ArgType;
  arg_default : PyVal;
  arg_help : string
}.

(** [parser.add_argument("input_video_path", help=...)] (line 5). *)
Definition input_arg : Argument :=
  mkArgument [] "input_video_path" TStr VNone "Path to the video you want to slice for pieces".

(** [parser.add_argument("--frame_rate", type=int, default=30, help=...)]
    (lines 6-7). *)
Definition frame_rate_arg : Argument :=
  mkArgument ["--frame_rate"] "frame_rate" TInt (VInt 30)
    "Every frame which order number can be divided by frame_rate will be saved.".

(** [parser.add_argument("--output_frames_folder_path",
    default="output/frames/", help=...)] (lines 8-9). *)
Definition folder_arg : Argument :=
  mkArgument ["--output_frames_folder_path"] "output_frames_folder_path" TStr
    (VStr "output/frames/") "Path for the place you want frames to be stored.".

(** Lines 5-9, in the order of the calls. *)
Definition parser_arguments : list Argument := [input_arg; frame_rate_arg; folder_arg].

(** The parser's actions: the [-h/--help] action that
    [ArgumentParser()] adds first, and one [store] action per call. *)
Inductive Action := AHelp | AStore (a : Argument).

(** Why [parse_args] stops: the message [parser.error] prints. *)
Inductive ArgError :=
  | ErrAmbiguous (opt : string) (matches : list string)
      (* ambiguous option: %(option)s could match %(matches)s *)
  | ErrIgnoredExplicit (act : Action) (explicit : string)
      (* argument ...: ignored explicit argument %r *)
  | ErrExpectedOne (a : Argument)      (* argument ...: expected one argument *)
  | ErrInvalidValue (a : Argument) (value : string)  (* invalid int value: %r *)
  | ErrRequired (names : list string)  (* the following arguments are required *)
  | ErrUnrecognized (extras : list string).  (* unrecognized arguments *)

(** A computation of the parser: a value, the exit of [--help]
    ([sys.exit(0)] after the help text), an error ([sys.exit(2)]), or
    the model's loop ran out of fuel. *)
Inductive PResult (A : Type) := POk (a : A) | PHelp | PErr (e : ArgError) | PFuel.
Arguments POk {A}.
Arguments PHelp {A}.
Arguments PErr {A}.
Arguments PFuel {A}.

#[export] Instance presult_ret : MRet PResult := fun A a => POk a.
#[export] Instance presult_bind : MBind PResult := fun A B f m =>
  match m with POk a => f a | PHelp => PHelp | PErr e => PErr e | PFuel => PFuel end.

(** The pattern letter of one command-line string: ['A'], ['-'] for
    the [--] separator, ['O'] with the action found, the option string
    and an explicit argument. *)
Inductive Pat := PA | PSep | PO (act : option Action) (flag : string) (explicit : option string).

(** The namespace, the actions seen and the extras collected. *)
Record PState := mkPState {
  ps_ns : gmap string PyVal;
  ps_seen : list string;
  ps_extras : list string
}.

(** ** String tests of [argparse] *)

Definition startswith (s prefix : string) : bool :=
  match strip_prefix prefix s with Some _ => true | None => false end.

(** [s.split('=', 1)] when [s] holds a [=]. *)
Definition split_eq (s : string) : option (string * string) :=
  match split_at_char "=" s with
  | (o, String _ e) => Some (o, e)
  | (_, EmptyString) => None
  end.

(** [arg_string[0] in self.prefix_chars]. *)
Definition dash_first (s : string) : bool :=
  match s with String c _ => bool_decide (c = "-"%char) | EmptyString => false end.

Definition is_digit (c : ascii) : bool := bool_decide (c ∈ digit_chars).

Fixpoint span_digits (s : string) : nat * string :=
  match s with
  | String c t => if is_digit c then let '(n, r) := span_digits t in (S n, r) else (O, s)
  | EmptyString => (O, EmptyString)
  end.

(** Python's [$]: the end of the string or a final newline. *)
Definition at_end (s : string) : bool :=
  bool_decide (s = EmptyString) || bool_decide (s = String "010" EmptyString).

(** [_negative_number_matcher = re.compile(r'^-\d+$|^-\d*\.\d+$')]. *)
Definition negative_number (s : string) : bool :=
  match s with
  | String c t =>
      bool_decide (c = "-"%char) &&
      (let '(n, r) := span_digits t in
       (bool_decide (0 < n)%nat && at_end r) ||
       match r with
       | String d u =>
           bool_decide (d = "."%char) &&
           (let '(m, r') := span_digits u in bool_decide (0 < m)%nat && at_end r')
       | EmptyString => false
       end)
  | EmptyString => false
  end.

Section Parser.
Variable args : list Argument.

(** [parser._option_string_actions], in the order the strings were
    registered. *)
Definition option_actions : list (string * Action) :=
  [("-h", AHelp); ("--help", AHelp)] ++
  concat (map (fun a => map (fun o => (o, AStore a)) (arg_flags a)) args).

(** [o in self._option_string_actions] and the action it maps to. *)
Definition lookup_action (o : string) : option Action :=
  snd <$> head (filter (fun oa => oa.1 = o) option_actions).

(** [parser._get_positional_actions()]. *)
Definition positionals : list Argument :=
  filter (fun a => arg_flags a = []) args.

(** [self._has_negative_number_optionals]. *)
Definition has_negative_number_optionals : bool :=
  existsb (fun oa => negative_number oa.1) option_actions.

(** [_get_option_tuples(option_string)]. *)
Definition get_option_tuples (s : string) : list (Action * string * option string) :=
  match s with
  | String c1 (String c2 rest) =>
      if bool_decide (c2 = "-"%char) then
        let '(prefix, e) := match split_eq s with Some (o, e) => (o, Some e) | None => (s, None) end in
        omap (fun oa => if startswith oa.1 prefix then Some (oa.2, oa.1, e) else None)
             option_actions
      else
        omap (fun oa =>
                if bool_decide (oa.1 = String c1 (String c2 EmptyString)) then Some (oa.2, oa.1, Some rest)
                else if startswith oa.1 s then Some (oa.2, oa.1, None) else None)
             option_actions
  | _ => []
  end.

(** [_parse_optional(arg_string)]: [None] for a positional string. *)
Definition parse_optional (s : string) : PResult (option (option Action * string * option string)) :=
  match s with
  | EmptyString => mret None
  | String c t =>
      if negb (bool_decide (c = "-"%char)) then mret None else
      match lookup_action s with
      | Some act => mret (Some (Some act, s, None))
      | None =>
          if bool_decide (t = EmptyString) then mret None else
          match (match split_eq s with
                 | Some (o, e) => (fun act => (act, o, e)) <$> lookup_action o
                 | None => None
                 end) with
          | Some (act, o, e) => mret (Some (Some act, o, Some e))
          | None =>
              match get_option_tuples s with
              | [] =>
                  if negative_number s && negb has_negative_number_optionals then mret None
                  else if str_mem " " s then mret None
                  else mret (Some (None, s, None))
              | [(act, o, e)] => mret (Some (Some act, o, e))
              | tups => PErr (ErrAmbiguous s ((fun t => t.1.2) <$> tups))
              end
          end
      end
  end.

(** The loop of [_parse_known_args] that builds [arg_strings_pattern]:
    every string after the first [--] is ['A']. *)
Fixpoint classify (argv : list string) : PResult (list (string * Pat)) :=
  match argv with
  | [] => mret []
  | s :: rest =>
      if bool_decide (s = "--") then mret ((s, PSep) :: ((fun s' => (s', PA)) <$> rest))
      else
        o ← parse_optional s;
        rest' ← classify rest;
        mret ((s, match o with None => PA | Some (act, f, e) => PO act f e end) :: rest')
  end.

(** [type_func(arg_string)] in [_get_value]: no type keeps the string,
    [type=int] calls [int()]. *)
Definition py_convert (ty : ArgType) (s : string) : option PyVal :=
  match ty with TStr => Some (VStr s) | TInt => VInt <$> py_int s end.

(** [arg_strings.remove('--')]: the first occurrence, if any. *)
Fixpoint remove_sep (l : list string) : list string :=
  match l with
  | [] => []
  | s :: l' => if bool_decide (s = "--") then l' else s :: remove_sep l'
  end.

(** [take_action] of a [store] action: [_get_values] then [setattr]. *)
Definition take_store (a : Argument) (strs : list string) (st : PState) : PResult PState :=
  v ← match remove_sep strs with
      | [s] => match py_convert (arg_type a) s with
               | Some v => mret v
               | None => PErr (ErrInvalidValue a s)
               end
      | _ => mret VEmptyList (* [nargs=None] matched only a [--] *)
      end;
  mret (mkPState (<[arg_dest a := v]> (ps_ns st)) (arg_dest a :: ps_seen st) (ps_extras st)).

Definition take_action (t : Action * list string) (st : PState) : PResult PState :=
  match t.1 with AHelp => PHelp | AStore a => take_store a t.2 st end.

Fixpoint take_actions (ts : list (Action * list string)) (st : PState) : PResult PState :=
  match ts with
  | [] => mret st
  | t :: ts' => st' ← take_action t st; take_actions ts' st'
  end.

(** [consume_optional] without an explicit argument: [_match_argument]
    with the pattern ['A'] of a [store] option, [''] of [help]. *)
Definition match_optional (act : Action) (rest : list (string * Pat)) :
    PResult (list (Action * list string) * list (string * Pat)) :=
  match act with
  | AHelp => mret ([(act, [])], rest)
  | AStore a =>
      match rest with
      | (v, PA) :: rest' => mret ([(act, [v])], rest')
      | _ => PErr (ErrExpectedOne a)
      end
  end.

(** [consume_optional] with the explicit argument [e]: a single-dash
    flag that takes no argument reads the next flags out of [e]
    ([-hh] is [-h -h]). *)
Fixpoint match_explicit (act : Action) (flag : string) (e : string) (rest : list (string * Pat)) :
    PResult (list (Action * list string) * list (string * Pat)) :=
  let count := match act with AHelp => O | AStore _ => 1%nat end in
  let single := match flag with String _ (String c _) => negb (bool_decide (c = "-"%char)) | _ => false end in
  match e with
  | String c e' =>
      if bool_decide (count = O) && single then
        let flag' := match flag with String c0 _ => String c0 (String c EmptyString) | _ => flag end in
        match lookup_action flag' with
        | Some act' =>
            r ← (match e' with
                 | EmptyString => match_optional act' rest
                 | _ => match_explicit act' flag' e' rest
                 end);
            mret ((act, []) :: r.1, r.2)
        | None => PErr (ErrIgnoredExplicit act e)
        end
      else if bool_decide (count = 1%nat) then mret ([(act, [e])], rest)
      else PErr (ErrIgnoredExplicit act e)
  | EmptyString =>
      if bool_decide (count = 1%nat) then mret ([(act, [e])], rest)
      else PErr (ErrIgnoredExplicit act e)
  end.

(** [consume_optional(start_index)]: an unknown option goes to the
    extras; the actions found are taken in order. *)
Definition consume_optional (s : string) (act : option Action) (flag : string)
    (explicit : option string) (rest : list (string * Pat)) (st : PState) :
    PResult (list (string * Pat) * PState) :=
  match act with
  | None => mret (rest, mkPState (ps_ns st) (ps_seen st) (ps_extras st ++ [s]))
  | Some act =>
      r ← match explicit with
          | Some e => match_explicit act flag e rest
          | None => match_optional act rest
          end;
      st' ← take_actions r.1 st;
      mret (r.2, st')
  end.
(** The number of leading [--] marks. *)
Fixpoint count_sep (toks : list (string * Pat)) : nat :=
  match toks with
  | (_, PSep) :: toks' => S (count_sep toks')
  | _ => O
  end.

(** [_match_argument] of a positional with [nargs=None], whose
    pattern is [-*A-*]: the number of strings it takes. *)
Definition match_positional (toks : list (string * Pat)) : option nat :=
  let n := count_sep toks in
  match drop n toks with
  | (_, PA) :: toks' => Some (n + 1 + count_sep toks')%nat
  | _ => None
  end.

(** [consume_positionals(start_index)]: as many positionals as the
    pattern matches, each taking its strings, in order. *)
Fixpoint consume_positionals (pos : list Argument) (toks : list (string * Pat)) (st : PState) :
    PResult (list Argument * list (string * Pat) * PState) :=
  match pos with
  | [] => mret ([], toks, st)
  | a :: pos' =>
      match match_positional toks with
      | None => mret (pos, toks, st)
      | Some k =>
          st' ← take_store a (fst <$> take k toks) st;
          consume_positionals pos' (drop k toks) st'
      end
  end.

Definition is_option (t : string * Pat) : bool :=
  match t.2 with PO _ _ _ => true | _ => false end.

(** The strings before the next option. *)
Fixpoint before_option (toks : list (string * Pat)) : list (string * Pat) :=
  match toks with
  | t :: toks' => if is_option t then [] else t :: before_option toks'
  | [] => []
  end.

(** The [while start_index <= max_option_string_index] loop of
    [_parse_known_args] and the final [consume_positionals]; [toks] is
    the suffix from [start_index]. *)
Fixpoint parse_loop (fuel : nat) (pos : list Argument) (toks : list (string * Pat)) (st : PState) :
    PResult (list Argument * PState) :=
  match fuel with
  | O => PFuel
  | S fuel' =>
      if negb (existsb is_option toks) then
        r ← consume_positionals pos toks st;
        let '(pos', toks', st') := r in
        mret (pos', mkPState (ps_ns st') (ps_seen st') (ps_extras st' ++ (fst <$> toks')))
      else
        match toks with
        | (s, PO act flag e) :: rest =>
            r ← consume_optional s act flag e rest st;
            parse_loop fuel' pos r.1 r.2
        | _ =>
            r ← consume_positionals pos toks st;
            let '(pos', toks', st') := r in
            if bool_decide (length toks' < length toks)%nat then parse_loop fuel' pos' toks' st'
            else
              let pre := before_option toks in
              parse_loop fuel' pos (drop (length pre) toks)
                (mkPState (ps_ns st) (ps_seen st) (ps_extras st ++ (fst <$> pre)))
        end
  end.

(** The defaults [parse_known_args] puts in the namespace first. *)
Definition default_ns : gmap string PyVal :=
  list_to_map ((fun a => (arg_dest a, arg_default a)) <$> args).

(** After the loop: an unseen action whose default is a string gets it
    converted by its type. *)
Definition convert_defaults (st : PState) : PResult (gmap string PyVal) :=
  foldr (fun a acc =>
           ns ← acc;
           match arg_default a with
           | VStr d =>
               if bool_decide (arg_dest a ∈ ps_seen st) then mret ns
               else match ps_ns st !! arg_dest a with
                    | Some (VStr d') =>
                        if bool_decide (d' = d) then
                          match py_convert (arg_type a) d with
                          | Some v => mret (<[arg_dest a := v]> ns)
                          | None => PErr (ErrInvalidValue a d)
                          end
                        else mret ns
                    | _ => mret ns
                    end
           | _ => mret ns
           end)
        (mret (ps_ns st)) (rev args).

(** [parser.parse_args(argv)]. *)
Definition parse_args (argv : list string) : PResult (gmap string PyVal) :=
  toks ← classify argv;
  r ← parse_loop (S (length toks)) positionals toks (mkPState default_ns [] []);
  let '(pos', st) := r in
  ns ← convert_defaults st;
  match (fun a => arg_dest a) <$> filter (fun a => arg_dest a ∉ ps_seen st) positionals with
  | [] =>
      match ps_extras st with
      | [] => mret ns
      | ex => PErr (ErrUnrecognized ex)
      end
  | missing => PErr (ErrRequired missing)
  end.
End Parser.

(** [str(v)], as the f-strings format [args.output_frames_folder_path]. *)
Definition py_str_val (v : PyVal) : string :=
  match v with
  | VNone => "None"
  | VStr s => s
  | VInt z => py_str_int z
  | VEmptyList => "[]"
  end.

(** [args.input_video_path], [args.frame_rate] and
    [args.output_frames_folder_path] as the script uses them: a path
    for [cv2.VideoCapture], an int for [%] and [//], anything for the
    f-string.  [None] when [frame_rate] is not an int, which the script
    meets with a [TypeError] at its first [%] or [//]. *)
Definition config_of_ns (ns : gmap string PyVal) : option Config :=
  match ns !! "input_video_path", ns !! "frame_rate", ns !! "output_frames_folder_path" with
  | Some (VStr p), Some (VInt r), Some f => Some (mkConfig p r (py_str_val f))
  | _, _, _ => None
  end.

Section Main.
Context {F : Type}.

(** The whole program run with [sys.argv[1:] = argv].  [--help] and
    the errors of [parse_args] exit before line 13, and a [frame_rate]
    that is not an int raises before any file is written or any line
    printed. *)
Definition main (argv : list string) (fuel : nat) (os : Os F) : Outcome unit * State (list F) F :=
  match parse_args parser_arguments argv with
  | POk ns =>
      match config_of_ns ns with
      | Some cfg => run_script cfg fuel os
      | None => (Raised TypeError, init_state os)
      end
  | PHelp => (Raised (SystemExit 0), init_state os)
  | PErr _ => (Raised (SystemExit 2), init_state os)
  | PFuel => (OutOfFuel, init_state os)
  end.
End Main.

(** ** The parser's computations *)

(** A computation that returns a suffix of [rest] (with some [x]). *)
Definition suffix_ok {X} (rest : list (string * Pat)) (m : PResult (X * list (string * Pat))) : Prop :=
  m <> PFuel /\ forall r, m = POk r -> (length r.2 <= length rest)%nat.


Lemma bind_POk {A B} (m : PResult A) (f : A -> PResult B) a :
  m = POk a -> (m ≫= f) = f a.
Proof. by intros ->. Qed.

Lemma bind_not_fuel {A B} (m : PResult A) (f : A -> PResult B) :
  m <> PFuel -> (forall a, m = POk a -> f a <> PFuel) -> (m ≫= f) <> PFuel.
Proof. destruct m; simpl; auto. Qed.

(** Split the parser's binds and returns. *)
Ltac pres_step :=
  repeat match goal with
  | |- (_ ≫= _) <> PFuel => apply bind_not_fuel; [|intros ? ?]
  | |- mret _ <> PFuel => discriminate
  | |- PErr _ <> PFuel => discriminate
  | |- PHelp <> PFuel => discriminate
  end.

(** [v] has the type that [type=] promises. *)
Definition has_type (ty : ArgType) (v : PyVal) : bool :=
  match ty, v with TStr, VStr _ => true | TInt, VInt _ => true | _, _ => false end.

(** The value of [a] on the namespace: converted by its type, the empty
    list of a lone [--], or the default while [a] has not been seen. *)
Definition value_ok (a : Argument) (seen : list string) (v : PyVal) : Prop :=
  (has_type (arg_type a) v = true) \/ (v = VEmptyList) \/ ((arg_dest a ∉ seen) /\ v = arg_default a).

Definition ns_ok (args : list Argument) (ns : gmap string PyVal) (seen : list string) : Prop :=
  forall a, a ∈ args -> exists v, ns !! arg_dest a = Some v /\ value_ok a seen v.

(** The store actions that a list of actions refers to are the parser's. *)
Definition stores_in {X} (args : list Argument) (l : list (Action * X)) : Prop :=
  forall a x, (AStore a, x) ∈ l -> a ∈ args.

(** A step of [consume_optional] keeps to the strings after it and to
    the parser's actions. *)
Definition match_ok (args : list Argument) (rest : list (string * Pat))
    (m : PResult (list (Action * list string) * list (string * Pat))) : Prop :=
  forall r, m = POk r -> r.2 ⊆ rest /\ stores_in args r.1.

(** The actions of the pattern are the parser's. *)
Definition toks_ok (args : list Argument) (toks : list (string * Pat)) : Prop :=
  forall s a f e, (s, PO (Some (AStore a)) f e) ∈ toks -> a ∈ args.

Section ParserFacts.
Variable args : list Argument.
Implicit Types (st : PState) (toks rest : list (string * Pat)).

Lemma take_store_not_fuel a strs st : take_store a strs st <> PFuel.
Proof.
  unfold take_store. apply bind_not_fuel; [repeat case_match; discriminate|intros; discriminate].
Qed.

Lemma take_actions_not_fuel ts st : take_actions ts st <> PFuel.
Proof.
  revert st. induction ts as [|t ts IH]; intros st; simpl; [discriminate|].
  apply bind_not_fuel; [|intros; apply IH].
  unfold take_action. destruct t.1; [discriminate|apply take_store_not_fuel].
Qed.

Lemma suffix_ok_ret {X} rest (x : X) t :
  (length t <= length rest)%nat -> suffix_ok rest (mret (x, t)).
Proof. intros H. split; [done|]. by intros r [= <-]. Qed.

Lemma suffix_ok_err {X} rest e : suffix_ok (X:=X) rest (PErr e).
Proof. done. Qed.

Lemma suffix_ok_bind {X Y} rest (m : PResult (X * list (string * Pat))) (f : X -> Y) :
  suffix_ok rest m -> suffix_ok rest (r ← m; mret (f r.1, r.2)).
Proof.
  intros [Hn Hl]. split; [by destruct m|].
  intros r Hr. destruct m as [r'| | |]; try done. injection Hr as <-. by apply Hl.
Qed.

#[local] Hint Resolve suffix_ok_ret suffix_ok_err suffix_ok_bind : core.

(** The optional's arguments are taken off the front of [rest]. *)
Lemma match_optional_suffix act rest : suffix_ok rest (match_optional act rest).
Proof. unfold match_optional. repeat case_match; subst; auto; apply suffix_ok_ret; simpl; lia. Qed.

#[local] Hint Resolve match_optional_suffix : core.

Lemma match_explicit_suffix act flag e rest : suffix_ok rest (match_explicit args act flag e rest).
Proof.
  revert act flag. induction e as [|c e IH]; intros act flag; simpl; repeat case_match; auto.
Qed.

#[local] Hint Resolve match_explicit_suffix : core.

Lemma consume_optional_suffix s act flag e rest st :
  consume_optional args s act flag e rest st <> PFuel /\
  forall r, consume_optional args s act flag e rest st = POk r -> (length r.1 <= length rest)%nat.
Proof.
  unfold consume_optional. destruct act as [act|]; [|split; [done|intros r [= <-]; simpl; lia]].
  assert (Hm : suffix_ok rest (match e with
                               | Some e => match_explicit args act flag e rest
                               | None => match_optional act rest end)) by (destruct e; auto).
  destruct Hm as [Hn Hl]. split.
  - apply bind_not_fuel; [done|]. intros r _. apply bind_not_fuel; [apply take_actions_not_fuel|done].
  - intros r Hr. destruct (match e with Some _ => _ | None => _ end) as [r'| | |]; try done.
    simpl in Hr. destruct (take_actions r'.1 st); try done. injection Hr as <-. by apply Hl.
Qed.

Lemma consume_positionals_suffix pos toks st :
  consume_positionals pos toks st <> PFuel /\
  forall r, consume_positionals pos toks st = POk r -> (length r.1.2 <= length toks)%nat.
Proof.
  revert toks st. induction pos as [|a pos IH]; intros toks st; simpl.
  - split; [done|]. by intros r [= <-].
  - destruct (match_positional toks) as [k|]; [|split; [done|by intros r [= <-]]].
    pose proof (take_store_not_fuel a (fst <$> take k toks) st) as Hs.
    destruct (take_store a _ st) as [st'| | |]; try done; simpl.
    destruct (IH (drop k toks) st') as [Hn Hl]. split; [done|].
    intros r Hr. specialize (Hl r Hr). rewrite length_drop in Hl. lia.
Qed.

Lemma before_option_length t toks :
  is_option t = false -> (0 < length (before_option (t :: toks)) <= length (t :: toks))%nat.
Proof.
  intros Ht. simpl. rewrite Ht. simpl. split; [lia|].
  enough (length (before_option toks) <= length toks)%nat by lia.
  induction toks as [|t' toks IH]; simpl; [lia|]. case_match; simpl; lia.
Qed.

(** The loop of [_parse_known_args] consumes at least one string per
    round: with more fuel than strings it never runs out. *)
Lemma parse_loop_not_fuel fuel pos toks st :
  (length toks < fuel)%nat -> parse_loop args fuel pos toks st <> PFuel.
Proof.
  revert pos toks st. induction fuel as [|fuel IH]; intros pos toks st Hf; [lia|]. simpl.
  destruct (existsb is_option toks) eqn:Eo; simpl.
  - destruct toks as [|[s p] rest]; [done|].
    destruct p as [| |act flag e].
    1,2: match goal with |- context [consume_positionals ?ps ((?s0, ?p0) :: ?r0) ?st0] =>
      destruct (consume_positionals_suffix ps ((s0, p0) :: r0) st0) as [Hn Hl];
      pose proof (before_option_length (s0, p0) r0 eq_refl) end;
      apply bind_not_fuel; [done|]; intros [[pos' toks'] st'] Hr; specialize (Hl _ Hr); simpl in Hl;
      case_bool_decide; [apply IH; simpl in *; lia|];
      apply IH; rewrite length_drop; simpl in *; lia.
    destruct (consume_optional_suffix s act flag e rest st) as [Hn Hl].
    apply bind_not_fuel; [done|]. intros r Hr. apply IH. specialize (Hl r Hr). simpl in Hf. lia.
  - destruct (consume_positionals_suffix pos toks st) as [Hn _].
    apply bind_not_fuel; [done|]. intros [[? ?] ?] _. discriminate.
Qed.

Lemma parse_optional_not_fuel s : parse_optional args s <> PFuel.
Proof. unfold parse_optional. repeat case_match; discriminate. Qed.

Lemma classify_not_fuel argv : classify args argv <> PFuel.
Proof.
  induction argv as [|s argv IH]; simpl; [discriminate|].
  case_bool_decide; [discriminate|].
  apply bind_not_fuel; [apply parse_optional_not_fuel|intros o _].
  apply bind_not_fuel; [done|intros; discriminate].
Qed.

Lemma convert_defaults_not_fuel st : convert_defaults args st <> PFuel.
Proof.
  unfold convert_defaults. induction (rev args) as [|a l IH]; simpl; [discriminate|].
  apply bind_not_fuel; [done|]. intros ns _. repeat case_match; discriminate.
Qed.
End ParserFacts.

(** ** Evaluating the parser of lines 4-9 *)

(** A closed character that is not a digit differs from a digit. *)
Ltac not_digit :=
  match goal with
  | Hd : ?d ∈ digit_chars |- _ =>
      let E := fresh in intros E; try (injection E; clear E); intros; subst;
      revert Hd; apply (bool_decide_eq_false_1 _); vm_compute; reflexivity
  end.

Lemma lookup_action_none args s :
  Forall (fun oa => oa.1 <> s) (option_actions args) -> lookup_action args s = None.
Proof.
  unfold lookup_action. induction 1 as [|oa l Hoa _ IH]; [done|].
  rewrite filter_cons_False by done. done.
Qed.

Lemma split_at_char_nomem c s : str_mem c s = false -> split_at_char c s = (s, "").
Proof.
  induction s as [|a s IH]; [done|]. simpl. intros [Ha Hs]%orb_false_iff.
  rewrite Ha, IH by done. done.
Qed.

Lemma all_digits_no_char c u : c ∉ digit_chars -> all_digits u -> str_mem c u = false.
Proof. intros Hc Hu. destruct (str_mem c u) eqn:E; [|done]. by apply Hu in E. Qed.

Lemma span_digits_all u : all_digits u -> span_digits u = (String.length u, "").
Proof.
  induction u as [|a u IH]; [done|]. intros Hu. simpl.
  assert (Ha : is_digit a = true).
  { apply bool_decide_eq_true_2, Hu. simpl. by rewrite bool_decide_true. }
  rewrite Ha, IH; [done|]. intros c Hc. apply Hu. simpl. by rewrite Hc, orb_true_r.
Qed.

Lemma parse_optional_plain args c t :
  c <> "-"%char -> parse_optional args (String c t) = POk None.
Proof. intros Hc. unfold parse_optional. by rewrite bool_decide_false. Qed.

Lemma parse_optional_negative d u :
  d ∈ digit_chars -> all_digits u ->
  parse_optional parser_arguments (String "-" (String d u)) = POk None.
Proof.
  intros Hd Hu. unfold parse_optional. rewrite bool_decide_true by done. simpl negb. cbv iota.
  rewrite lookup_action_none by (cbn; repeat (constructor; [simpl; not_digit|]); constructor).
  rewrite bool_decide_false by done.
  assert (He : str_mem "=" (String "-" (String d u)) = false).
  { simpl. rewrite (bool_decide_false (d = _)) by not_digit. simpl.
    apply all_digits_no_char; [|done]. apply (bool_decide_eq_false_1 _); vm_compute; reflexivity. }
  unfold split_eq. rewrite split_at_char_nomem by done.
  replace (get_option_tuples parser_arguments _) with (@nil (Action * string * option string)).
  2:{ unfold get_option_tuples. rewrite bool_decide_false by not_digit. cbn.
      unfold startswith. simpl. rewrite !(bool_decide_false (d = _)) by not_digit.
      rewrite !(bool_decide_false (_ = String "-" (String d ""))) by not_digit. done. }
  unfold negative_number.
  rewrite span_digits_all by (intros c Hc; apply str_mem_cons in Hc as [<-|Hc]; auto).
  reflexivity.
Qed.
Lemma parse_optional_py_str_int n : parse_optional parser_arguments (py_str_int n) = POk None.
Proof.
  destruct (py_str_int_shape n) as (d & u & Hd & Hu & ->).
  case_bool_decide; [by apply parse_optional_negative|].
  apply parse_optional_plain. not_digit.
Qed.

Lemma take_store_one a s st :
  s <> "--" ->
  take_store a [s] st =
    match py_convert (arg_type a) s with
    | Some v => POk (mkPState (<[arg_dest a := v]> (ps_ns st)) (arg_dest a :: ps_seen st) (ps_extras st))
    | None => PErr (ErrInvalidValue a s)
    end.
Proof. intros Hs. unfold take_store. simpl. rewrite bool_decide_false by done. by destruct (py_convert _ _). Qed.

Lemma classify_cons args s rest o :
  s <> "--" -> parse_optional args s = POk o ->
  classify args (s :: rest) =
    (rest' ← classify args rest;
     mret ((s, match o with None => PA | Some (act, f, e) => PO act f e end) :: rest')).
Proof. intros Hs Ho. simpl. rewrite bool_decide_false by done. by rewrite Ho. Qed.

Lemma consume_positionals_cons a pos toks st k :
  match_positional toks = Some k ->
  consume_positionals (a :: pos) toks st =
    (st' ← take_store a (fst <$> take k toks) st; consume_positionals pos (drop k toks) st').
Proof. intros Hk. simpl. by rewrite Hk. Qed.

Lemma parse_loop_positionals args fuel pos toks st pos' toks' st' :
  existsb is_option toks = true -> is_option (default ("", PA) (head toks)) = false ->
  consume_positionals pos toks st = POk (pos', toks', st') ->
  (length toks' < length toks)%nat ->
  parse_loop args (S fuel) pos toks st = parse_loop args fuel pos' toks' st'.
Proof.
  intros Ho Hh Hc Hl. simpl. rewrite Ho. simpl.
  destruct toks as [|[s [| |act flag e]] rest]; try done; rewrite Hc; simpl; by rewrite bool_decide_true.
Qed.

Lemma parse_loop_optional args fuel pos s act flag e rest st rest' st' :
  consume_optional args s act flag e rest st = POk (rest', st') ->
  parse_loop args (S fuel) pos ((s, PO act flag e) :: rest) st = parse_loop args fuel pos rest' st'.
Proof. intros Hc. simpl. by rewrite Hc. Qed.

Lemma parse_loop_last args fuel pos toks st pos' toks' st' :
  existsb is_option toks = false ->
  consume_positionals pos toks st = POk (pos', toks', st') ->
  parse_loop args (S fuel) pos toks st =
    POk (pos', mkPState (ps_ns st') (ps_seen st') (ps_extras st' ++ (fst <$> toks'))).
Proof. intros Ho Hc. simpl. rewrite Ho, Hc. done. Qed.

(** The only string default of lines 4-9 is a [str] that needs no
    conversion: the defaults step leaves the namespace as it is. *)
Lemma convert_defaults_parser st : convert_defaults parser_arguments st = POk (ps_ns st).
Proof.
  unfold convert_defaults. simpl. case_bool_decide; [done|].
  destruct (ps_ns st !! _) as [[| | |]|] eqn:E; try done.
  case_bool_decide; [subst|done]. simpl. by rewrite insert_id.
Qed.

Lemma consume_optional_store args s a flag v rest st :
  consume_optional args s (Some (AStore a)) flag None ((v, PA) :: rest) st =
    (st' ← take_store a [v] st; mret (rest, st')).
Proof. unfold consume_optional. cbn -[take_store]. by destruct (take_store a [v] st). Qed.

Lemma py_str_int_not_sep n : py_str_int n <> "--".
Proof.
  destruct (py_str_int_shape n) as (d & u & Hd & _ & ->).
  case_bool_decide; intros E; injection E; intros; subst;
    revert Hd; apply (bool_decide_eq_false_1 _); vm_compute; reflexivity.
Qed.

Lemma positionals_parser : positionals parser_arguments = [input_arg].
Proof. reflexivity. Qed.

Lemma parse_optional_no_dash args p :
  dash_first p = false -> parse_optional args p = POk None /\ p <> "--".
Proof.
  intros Hp. destruct p as [|c t]; [done|]. simpl in Hp. apply bool_decide_eq_false_1 in Hp.
  split; [by apply parse_optional_plain|]. by intros [= -> ->].
Qed.

(** The [args] the script reads off the namespaces these command lines
    produce. *)
Lemma config_of_parsed p v :
  config_of_ns (<["frame_rate" := v]> (<["input_video_path" := VStr p]> (default_ns parser_arguments)))
    = (match v with VInt n => Some (mkConfig p n "output/frames/") | _ => None end) /\
  config_of_ns (<["input_video_path" := VStr p]> (<["frame_rate" := v]> (default_ns parser_arguments)))
    = (match v with VInt n => Some (mkConfig p n "output/frames/") | _ => None end) /\
  config_of_ns (<["input_video_path" := VStr p]> (default_ns parser_arguments))
    = Some (mkConfig p 30 "output/frames/").
Proof. unfold config_of_ns. split; [|split]; simplify_map_eq; [by destruct v..|done]. Qed.

(** The positional [p] taken by [consume_positionals]. *)
Ltac take_input :=
  rewrite (consume_positionals_cons _ _ _ _ 1) by reflexivity; cbn [take fmap list_fmap fst drop];
  rewrite take_store_one by done; simpl; reflexivity.

(** [--frame_rate <str(n)>] taken by [consume_optional]. *)
Ltac take_rate :=
  rewrite consume_optional_store, take_store_one by apply py_str_int_not_sep;
  simpl; rewrite py_int_py_str_int; reflexivity.

(** ** The types of the namespace *)

Lemma option_actions_store args o a : (o, AStore a) ∈ option_actions args -> a ∈ args.
Proof.
  unfold option_actions. rewrite elem_of_app. intros [H|H].
  { repeat (apply elem_of_cons in H as [H|H]; [discriminate|]). by apply elem_of_nil in H. }
  induction args as [|b args IH]; simpl in H; [by apply elem_of_nil in H|].
  apply elem_of_app in H as [H|H]; [|right; by apply IH].
  apply list_elem_of_In, in_map_iff in H as (x & [= _ ->] & _). left.
Qed.

Lemma lookup_action_elem args o act : lookup_action args o = Some act -> exists o', (o', act) ∈ option_actions args.
Proof.
  unfold lookup_action. destruct (head _) as [[o' act']|] eqn:E; simpl; [intros [= <-]|done].
  apply head_Some_elem_of, list_elem_of_filter in E as [_ E]. eauto.
Qed.

Lemma omap_tuples_elem args (f : string * Action -> option (Action * string * option string)) act o e :
  (forall oa x, f oa = Some x -> x.1 = (oa.2, oa.1)) ->
  (act, o, e) ∈ omap f (option_actions args) -> (o, act) ∈ option_actions args.
Proof.
  intros Hf ([o' act'] & Hin & E)%list_elem_of_omap. apply Hf in E. simpl in E. by simplify_eq.
Qed.

Lemma get_option_tuples_elem args s act o e :
  (act, o, e) ∈ get_option_tuples args s -> (o, act) ∈ option_actions args.
Proof.
  unfold get_option_tuples. destruct s as [|c1 [|c2 rest]]; [by intros ?%elem_of_nil..|].
  destruct (bool_decide _); [destruct (split_eq _) as [[o1 e1]|]; cbv beta iota zeta|];
    apply omap_tuples_elem; intros oa x;
    repeat match goal with |- context [if ?b then _ else _] => destruct b end;
    intros; by simplify_eq.
Qed.

(** An option string [parse_optional] recognises names one of the
    parser's actions. *)
Lemma parse_optional_store args s a f e :
  parse_optional args s = POk (Some (Some (AStore a), f, e)) -> a ∈ args.
Proof.
  unfold parse_optional. destruct s as [|c t]; [intros [=]|].
  destruct (negb _); [intros [=]|].
  destruct (lookup_action args (String c t)) as [act|] eqn:L.
  { intros [= ->]. apply lookup_action_elem in L as [? ?]. by eapply option_actions_store. }
  destruct (bool_decide _); [intros [=]|].
  destruct (split_eq (String c t)) as [[o e']|]; cbn -[get_option_tuples negative_number has_negative_number_optionals str_mem lookup_action].
  { destruct (lookup_action args o) as [act|] eqn:L2; cbn -[get_option_tuples negative_number has_negative_number_optionals str_mem lookup_action].
    - intros [= -> _ _]. apply lookup_action_elem in L2 as [? ?]. by eapply option_actions_store.
    - destruct (get_option_tuples args (String c t)) as [|[[act o'] e''] [|t' ts]] eqn:G.
      + destruct (_ && _); [intros [=]|]. destruct (str_mem _ _); intros [=].
      + intros [= -> -> ->]. apply (option_actions_store args f), (get_option_tuples_elem _ (String c t) _ _ e).
        rewrite G. by left.
      + intros [=]. }
  destruct (get_option_tuples args (String c t)) as [|[[act o'] e''] [|t' ts]] eqn:G.
  - destruct (_ && _); [intros [=]|]. destruct (str_mem _ _); intros [=].
  - intros [= -> -> ->]. apply (option_actions_store args f), (get_option_tuples_elem _ (String c t) _ _ e).
    rewrite G. by left.
  - intros [=].
Qed.

(** A store action of the pattern is one of the parser's. *)
Lemma classify_toks_ok args argv toks : classify args argv = POk toks -> toks_ok args toks.
Proof.
  revert toks. induction argv as [|s argv IH]; simpl; intros toks.
  - intros [= <-] ? ? ? ? ?%elem_of_nil; done.
  - case_bool_decide as Hsep.
    + intros [= <-] s' a f e [H|H]%elem_of_cons; [done|].
      apply list_elem_of_fmap in H as (? & ? & _); done.
    + destruct (parse_optional args s) as [o| | |] eqn:Eo; simpl; try done.
      destruct (classify args argv) as [toks'| | |]; simpl; try done.
      intros [= <-] s' a f e [H|H]%elem_of_cons.
      * destruct o as [[[act f'] e']|]; simplify_eq. by eapply parse_optional_store.
      * by eapply IH.
Qed.

Section TypeFacts.
Variable args : list Argument.
Hypothesis Hnd : NoDup (arg_dest <$> args).
Implicit Types (st : PState) (toks rest : list (string * Pat)).

Lemma py_convert_typed ty s v : py_convert ty s = Some v -> has_type ty v = true.
Proof. destruct ty; simpl; [by intros [= <-]|]. destruct (py_int s); simpl; [by intros [= <-]|done]. Qed.

(** Storing a typed value at [a]'s destination, and perhaps marking
    [a] as seen, keeps the namespace typed. *)
Lemma ns_ok_insert a v ns seen seen' :
  a ∈ args -> has_type (arg_type a) v = true \/ v = VEmptyList ->
  (forall d, d ∈ seen' -> d = arg_dest a \/ d ∈ seen) ->
  ns_ok args ns seen -> ns_ok args (<[arg_dest a := v]> ns) seen'.
Proof.
  intros Ha Hv Hs Hok b Hb. destruct (decide (arg_dest a = arg_dest b)) as [E|E].
  - assert (b = a) as -> by (symmetry; eapply NoDup_fmap_inj_in; eauto).
    rewrite lookup_insert_eq. exists v. split; [done|]. unfold value_ok. tauto.
  - rewrite lookup_insert_ne by done. destruct (Hok b Hb) as (w & Hw & Hwok). exists w. split; [done|].
    destruct Hwok as [?|[?|[Hn ?]]]; [by left|by right; left|right; right; split; [|done]].
    intros [Hd|Hd]%Hs; [by apply E|done].
Qed.

Lemma take_store_ok a strs st st' :
  a ∈ args -> ns_ok args (ps_ns st) (ps_seen st) -> take_store a strs st = POk st' ->
  ns_ok args (ps_ns st') (ps_seen st').
Proof.
  intros Ha Hok. unfold take_store.
  assert (Hs : forall d, d ∈ arg_dest a :: ps_seen st -> d = arg_dest a \/ d ∈ ps_seen st)
    by (intros d; rewrite elem_of_cons; done).
  destruct (remove_sep strs) as [|s0 [|s1 l]]; cbn -[py_convert];
    [|destruct (py_convert (arg_type a) s0) as [v|] eqn:Ec; cbn; [|intros [=]]|];
    intros [= <-]; simpl; eapply ns_ok_insert; eauto using py_convert_typed.
Qed.

Lemma take_actions_ok ts st st' :
  stores_in args ts -> ns_ok args (ps_ns st) (ps_seen st) -> take_actions ts st = POk st' ->
  ns_ok args (ps_ns st') (ps_seen st').
Proof.
  revert st. induction ts as [|[act strs] ts IH]; intros st Hin Hok; simpl; [by intros [= <-]|].
  unfold take_action. simpl. destruct act as [|a]; [done|].
  destruct (take_store a strs st) as [st1| | |] eqn:E; simpl; try done.
  apply IH; [intros b x Hb; eapply Hin; by right|]. eapply take_store_ok; eauto. eapply Hin. by left.
Qed.

Lemma match_optional_ok act rest :
  (forall a, act = AStore a -> a ∈ args) -> match_ok args rest (match_optional act rest).
Proof.
  intros Hact r. unfold match_optional.
  destruct act as [|a]; [intros [= <-]; split; [done|]; intros b x [H|H]%elem_of_cons; [done|by apply elem_of_nil in H]|].
  destruct rest as [|[v [| |? ? ?]] rest']; try done. intros [= <-]. split.
  - intros y Hy. by right.
  - intros b x [Hb|H]%elem_of_cons; [injection Hb; intros; subst; by apply Hact|by apply elem_of_nil in H].
Qed.

Lemma match_ok_cons rest act0 m :
  (forall a, act0 = AStore a -> a ∈ args) -> match_ok args rest m ->
  match_ok args rest (r ← m; mret ((act0, []) :: r.1, r.2)).
Proof.
  intros Hact Hm r Hr. destruct m as [r'| | |]; try done. injection Hr as <-.
  destruct (Hm r' eq_refl) as [Hsub Hst]. split; [done|].
  intros b x [Hb|H]%elem_of_cons; [injection Hb; intros; subst; by apply Hact|by eapply Hst].
Qed.

Lemma lookup_action_store o a : lookup_action args o = Some (AStore a) -> a ∈ args.
Proof. intros (o' & H)%lookup_action_elem. by eapply option_actions_store. Qed.

Lemma match_explicit_ok act flag e rest :
  (forall a, act = AStore a -> a ∈ args) -> match_ok args rest (match_explicit args act flag e rest).
Proof.
  revert act flag. induction e as [|c e IH]; intros act flag Hact; simpl.
  - case_bool_decide as Hc1; [|done]. intros r [= <-]. split; [done|].
    intros b x [Hb|H]%elem_of_cons; [injection Hb; intros; subst; by apply Hact|by apply elem_of_nil in H].
  - destruct (_ && _).
    + destruct (lookup_action args _) as [act'|] eqn:L; [|done].
      assert (Hact' : forall a, act' = AStore a -> a ∈ args) by (intros a ->; by eapply lookup_action_store).
      apply match_ok_cons; [done|]. destruct e; [by apply match_optional_ok|by apply IH].
    + case_bool_decide as Hc1; [|done]. intros r [= <-]. split; [done|].
      intros b x [Hb|H]%elem_of_cons; [injection Hb; intros; subst; by apply Hact|by apply elem_of_nil in H].
Qed.

Lemma consume_optional_ok s act flag e rest st rest' st' :
  (forall a, act = Some (AStore a) -> a ∈ args) -> ns_ok args (ps_ns st) (ps_seen st) ->
  consume_optional args s act flag e rest st = POk (rest', st') ->
  ns_ok args (ps_ns st') (ps_seen st') /\ rest' ⊆ rest.
Proof.
  intros Hact Hok. unfold consume_optional. destruct act as [act|]; [|intros [= <- <-]; done].
  assert (Hm : match_ok args rest (match e with
                                   | Some e => match_explicit args act flag e rest
                                   | None => match_optional act rest end)).
  { destruct e; [apply match_explicit_ok|apply match_optional_ok]; intros a ->; by apply Hact. }
  destruct (match e with Some _ => _ | None => _ end) as [r| | |]; simpl; try done.
  destruct (Hm r eq_refl) as [Hsub Hst].
  destruct (take_actions r.1 st) as [st1| | |] eqn:Et; simpl; try done. intros [= <- <-].
  split; [by eapply take_actions_ok|done].
Qed.

Lemma consume_positionals_ok pos toks st pos' toks' st' :
  pos ⊆ args -> ns_ok args (ps_ns st) (ps_seen st) ->
  consume_positionals pos toks st = POk (pos', toks', st') ->
  ns_ok args (ps_ns st') (ps_seen st') /\ toks' ⊆ toks /\ pos' ⊆ pos.
Proof.
  revert toks st. induction pos as [|a pos IH]; intros toks st Hpos Hok; simpl; [by intros [= <- <- <-]|].
  destruct (match_positional toks) as [k|]; [|by intros [= <- <- <-]].
  destruct (take_store a _ st) as [st1| | |] eqn:E; simpl; try done. intros Hc.
  assert (Ha : a ∈ args) by (apply Hpos; left).
  destruct (IH (drop k toks) st1) as (Hok' & Hsub & Hp); [intros x Hx; apply Hpos; by right|by eapply take_store_ok|done|].
  split; [done|split].
  - etrans; [done|apply subseteq_drop].
  - intros x Hx. right. by apply Hp.
Qed.

Lemma toks_ok_sub toks toks' : toks' ⊆ toks -> toks_ok args toks -> toks_ok args toks'.
Proof. intros Hsub Hok s a f e H. eapply Hok, Hsub, H. Qed.

(** The invariant of the loop of [_parse_known_args]: the namespace
    stays typed. *)
Lemma parse_loop_ok fuel pos toks st pos' st' :
  pos ⊆ args -> toks_ok args toks -> ns_ok args (ps_ns st) (ps_seen st) ->
  parse_loop args fuel pos toks st = POk (pos', st') -> ns_ok args (ps_ns st') (ps_seen st').
Proof.
  revert pos toks st. induction fuel as [|fuel IH]; intros pos toks st Hpos Htoks Hok; simpl; [done|].
  destruct (existsb is_option toks) eqn:Eo; simpl.
  - destruct toks as [|[s p] rest]; [done|]. destruct p as [| |act flag e].
    1,2: destruct (consume_positionals pos _ st) as [[[p1 t1] s1]| | |] eqn:Ec; simpl; try done;
      destruct (consume_positionals_ok _ _ _ _ _ _ Hpos Hok Ec) as (Hok1 & Hsub1 & Hp1);
      (case_bool_decide; [apply IH; [by transitivity pos|by eapply toks_ok_sub|done]|]);
      apply IH; [done| |exact Hok];
      eapply toks_ok_sub; [|exact Htoks]; etrans; [apply subseteq_drop|]; intros y Hy; by right.
    destruct (consume_optional args s act flag e rest st) as [[rest1 st1]| | |] eqn:Ec; simpl; try done.
    destruct (consume_optional_ok s act flag e rest st rest1 st1) as [Hok1 Hsub1];
      [intros a ->; eapply Htoks; by left|done|done|].
    apply IH; [done| |done]. eapply toks_ok_sub; [|done]. intros y Hy. right. by apply Hsub1.
  - destruct (consume_positionals pos toks st) as [[[p1 t1] s1]| | |] eqn:Ec; simpl; try done.
    intros [= <- <-]. simpl. by destruct (consume_positionals_ok _ _ _ _ _ _ Hpos Hok Ec) as [? _].
Qed.

Lemma default_ns_ok : ns_ok args (default_ns args) [].
Proof.
  intros a Ha. exists (arg_default a). split.
  - apply elem_of_list_to_map_1.
    + by rewrite <- list_fmap_compose.
    + apply list_elem_of_fmap. eauto.
  - right; right. split; [by intros ?%elem_of_nil|done].
Qed.

Lemma convert_defaults_ok st ns :
  ns_ok args (ps_ns st) (ps_seen st) -> convert_defaults args st = POk ns -> ns_ok args ns (ps_seen st).
Proof.
  intros Hok. unfold convert_defaults.
  assert (Hl : forall a, a ∈ rev args -> a ∈ args) by (intros a; rewrite !list_elem_of_In, <- in_rev; done).
  revert ns Hl. induction (rev args) as [|a l IH]; intros ns Hl; simpl; [by intros [= <-]|].
  destruct (foldr _ _ l) as [ns1| | |] eqn:E; simpl; try done.
  assert (Hok1 : ns_ok args ns1 (ps_seen st)) by (apply IH; [intros b Hb; apply Hl; by right|done]).
  assert (Ha : a ∈ args) by (apply Hl; by left).
  destruct (arg_default a); try (by intros [= <-]).
  case_bool_decide; [by intros [= <-]|].
  destruct (ps_ns st !! arg_dest a) as [[| | |]|]; try (by intros [= <-]).
  case_bool_decide; [|by intros [= <-]].
  destruct (py_convert (arg_type a) _) as [v|] eqn:Ec; [|done]. intros [= <-].
  eapply ns_ok_insert; eauto using py_convert_typed.
Qed.

(** Every argument of a successful parse has a value on the namespace:
    of its type, the empty list, or, for an option not given, its
    default. *)
Lemma parse_args_ns_ok argv ns :
  parse_args args argv = POk ns ->
  forall a, a ∈ args -> exists v, ns !! arg_dest a = Some v /\
    (has_type (arg_type a) v = true \/ v = VEmptyList \/ (arg_flags a <> [] /\ v = arg_default a)).
Proof.
  unfold parse_args. destruct (classify args argv) as [toks| | |] eqn:Ec;
    cbn -[parse_loop convert_defaults positionals]; try done.
  destruct (parse_loop _ _ _ _ _) as [[pos' st]| | |] eqn:El; cbn -[convert_defaults positionals]; try done.
  destruct (convert_defaults args st) as [ns'| | |] eqn:Ed; cbn -[positionals]; try done.
  destruct ((fun a => arg_dest a) <$> filter (fun a => arg_dest a ∉ ps_seen st) (positionals args))
    as [|? ?] eqn:F; [|done].
  destruct (ps_extras st); [intros [= <-]|done].
  assert (Hok : ns_ok args ns' (ps_seen st)).
  { eapply convert_defaults_ok; [|done]. apply (parse_loop_ok (S (length toks)) (positionals args) toks (mkPState (default_ns args) [] []) pos');
      [| |exact default_ns_ok|exact El].
    - intros a Ha%list_elem_of_filter. apply Ha.
    - by eapply classify_toks_ok. }
  apply fmap_nil_inv in F.
  intros a Ha. destruct (Hok a Ha) as (v & Hv & Hvok). exists v. split; [done|].
  destruct Hvok as [?|[?|[Hn ->]]]; [by left|by right; left|right; right; split; [|done]].
  intros Hf. assert (Hp : a ∈ filter (fun a => arg_dest a ∉ ps_seen st) (positionals args)).
  { apply list_elem_of_filter. split; [done|]. by apply list_elem_of_filter. }
  rewrite F in Hp. by apply elem_of_nil in Hp.
Qed.
End TypeFacts.

(** C16. [parser.parse_args()] terminates on every command line: the
    model's loop never runs out of the fuel [parse_args] gives it (one
    round per string), so it returns a namespace, exits for [--help],
    or reports an error. *)
Theorem parse_args_terminates (args : list Argument) (argv : list string) :
  parse_args args argv <> PFuel.
Proof.
  unfold parse_args. apply bind_not_fuel; [apply classify_not_fuel|intros toks _].
  apply bind_not_fuel; [apply parse_loop_not_fuel; lia|intros [pos st] _].
  apply bind_not_fuel; [apply convert_defaults_not_fuel|intros ns _].
  repeat case_match; discriminate.
Qed.

Lemma parse_optional_result args s :
  (exists o, parse_optional args s = POk o) \/
  (exists o ms, parse_optional args s = PErr (ErrAmbiguous o ms)).
Proof. unfold parse_optional. repeat case_match; eauto. Qed.

(** Building the pattern only fails on an ambiguous abbreviation. *)
Lemma classify_result args argv :
  (exists toks, classify args argv = POk toks) \/
  (exists o ms, classify args argv = PErr (ErrAmbiguous o ms)).
Proof.
  induction argv as [|s argv IH]; simpl; [by left; eexists|].
  case_bool_decide; [by left; eexists|].
  destruct (parse_optional_result args s) as [[o ->]|(o & ms & ->)]; simpl; [|by right; eauto].
  destruct IH as [[toks ->]|(o' & ms & ->)]; simpl; [left|right]; eauto.
Qed.

Section Eval.
Variable p : string.
Hypothesis Hp : dash_first p = false.

Lemma parse_path_only :
  parse_args parser_arguments [p] =
    POk (<["input_video_path" := VStr p]> (default_ns parser_arguments)).
Proof.
  destruct (parse_optional_no_dash parser_arguments p Hp) as [Hpo Hpd].
  unfold parse_args. rewrite (classify_cons _ p _ None) by done. rewrite positionals_parser.
  cbn -[parse_loop py_str_int convert_defaults default_ns].
  erewrite parse_loop_last by (reflexivity || take_input).
  simpl. by rewrite convert_defaults_parser.
Qed.

Lemma parse_rate_after n :
  parse_args parser_arguments [p; "--frame_rate"; py_str_int n] =
    POk (<["frame_rate" := VInt n]> (<["input_video_path" := VStr p]> (default_ns parser_arguments))).
Proof.
  destruct (parse_optional_no_dash parser_arguments p Hp) as [Hpo Hpd]. unfold parse_args.
  rewrite (classify_cons _ p _ None) by done. erewrite classify_cons by (done || reflexivity).
  rewrite (classify_cons _ (py_str_int n) _ None) by (apply parse_optional_py_str_int || apply py_str_int_not_sep).
  rewrite positionals_parser. cbn -[parse_loop py_str_int convert_defaults default_ns].
  erewrite parse_loop_positionals; [| reflexivity | reflexivity | take_input | simpl; lia].
  erewrite parse_loop_optional by take_rate.
  erewrite parse_loop_last by reflexivity.
  simpl. by rewrite convert_defaults_parser.
Qed.

Lemma parse_rate_before n :
  parse_args parser_arguments ["--frame_rate"; py_str_int n; p] =
    POk (<["input_video_path" := VStr p]> (<["frame_rate" := VInt n]> (default_ns parser_arguments))).
Proof.
  destruct (parse_optional_no_dash parser_arguments p Hp) as [Hpo Hpd]. unfold parse_args.
  erewrite classify_cons by (done || reflexivity).
  rewrite (classify_cons _ (py_str_int n) _ None) by (apply parse_optional_py_str_int || apply py_str_int_not_sep).
  rewrite (classify_cons _ p _ None) by done.
  rewrite positionals_parser. cbn -[parse_loop py_str_int convert_defaults default_ns].
  erewrite parse_loop_optional by take_rate.
  erewrite parse_loop_last by (reflexivity || take_input).
  simpl. by rewrite convert_defaults_parser.
Qed.
End Eval.

Section Sep.
Variable p : string.
Hypothesis Hp : dash_first p = false.

(** [--frame_rate=--] and [--output_frames_folder_path=--]: the [--]
    of the explicit value is removed by [_get_values], which stores the
    empty list. *)
Lemma parse_option_sep o a :
  (o, a) ∈ [("--frame_rate", frame_rate_arg); ("--output_frames_folder_path", folder_arg)] ->
  parse_args parser_arguments [p; o ++ "=--"] =
    POk (<[arg_dest a := VEmptyList]> (<["input_video_path" := VStr p]> (default_ns parser_arguments))).
Proof.
  intros Ho.
  destruct (parse_optional_no_dash parser_arguments p Hp) as [Hpo Hpd]. unfold parse_args.
  rewrite (classify_cons _ p _ None) by done.
  apply elem_of_cons in Ho as [[= -> ->]|Ho];
    [|apply elem_of_cons in Ho as [[= -> ->]|Ho]; [|by apply elem_of_nil in Ho]];
  (erewrite classify_cons by (done || reflexivity));
  rewrite positionals_parser; cbn -[parse_loop convert_defaults default_ns];
  (erewrite parse_loop_positionals; [| reflexivity | reflexivity | take_input | simpl; lia]);
  (erewrite parse_loop_optional by reflexivity);
  (erewrite parse_loop_last by reflexivity);
  simpl; rewrite ?convert_defaults_parser; reflexivity.
Qed.
End Sep.

(** C17. Given only the video path (any string that does not start
    with [-]), [parse_args] returns the namespace whose [args] are the
    path, the default [frame_rate] 30 and the default folder
    [output/frames/]. *)
Theorem parse_args_defaults p :
  dash_first p = false ->
  exists ns, parse_args parser_arguments [p] = POk ns /\
             config_of_ns ns = Some (mkConfig p 30 "output/frames/").
Proof.
  intros Hp. rewrite parse_path_only by done. eexists. split; [reflexivity|].
  apply (config_of_parsed p VNone).
Qed.

(** C18. Every int [n], negative and zero included, passed as
    [--frame_rate <str(n)>] before or after the video path, becomes
    [args.frame_rate = n]: the parser does not validate the rate, and
    reads [-5] as a negative number, not as an option. *)
Theorem parse_args_frame_rate p n :
  dash_first p = false ->
  (exists ns, parse_args parser_arguments [p; "--frame_rate"; py_str_int n] = POk ns /\
              config_of_ns ns = Some (mkConfig p n "output/frames/")) /\
  (exists ns, parse_args parser_arguments ["--frame_rate"; py_str_int n; p] = POk ns /\
              config_of_ns ns = Some (mkConfig p n "output/frames/")).
Proof.
  intros Hp. destruct (config_of_parsed p (VInt n)) as (Hc1 & Hc2 & _).
  rewrite parse_rate_after, parse_rate_before by done. split; eexists; eauto.
Qed.

(** C19. [-h] first on the command line prints the help and exits
    with status 0 whatever follows, unless a later string is an
    ambiguous abbreviation, which [parse_args] reports first (it reads
    every string before it takes any action). *)
Theorem parse_args_help rest :
  parse_args parser_arguments ("-h" :: rest) = PHelp \/
  exists o ms, parse_args parser_arguments ("-h" :: rest) = PErr (ErrAmbiguous o ms).
Proof.
  unfold parse_args. erewrite classify_cons by (done || reflexivity).
  destruct (classify_result parser_arguments rest) as [[toks ->]|(o & ms & ->)]; simpl; [left|right; eauto].
  reflexivity.
Qed.

(** C20. A [--frame_rate] value that [int()] rejects ([2.5], [ten],
    an empty string...) stops [parse_args] with
    [argument --frame_rate: invalid int value], and the program exits
    with status 2 before it opens the video: the world is unchanged. *)
Theorem parse_args_invalid_rate {F} p v fuel (os : Os F) :
  dash_first p = false ->
  dash_first v = false ->
  py_int v = None ->
  parse_args parser_arguments [p; "--frame_rate"; v] = PErr (ErrInvalidValue frame_rate_arg v) /\
  main [p; "--frame_rate"; v] fuel os = (Raised (SystemExit 2), init_state os).
Proof.
  intros Hp Hv Hi.
  destruct (parse_optional_no_dash parser_arguments p Hp) as [Hpo Hpd].
  destruct (parse_optional_no_dash parser_arguments v Hv) as [Hvo Hvd].
  assert (E : parse_args parser_arguments [p; "--frame_rate"; v] = PErr (ErrInvalidValue frame_rate_arg v)).
  { unfold parse_args.
    rewrite (classify_cons _ p _ None) by done. erewrite classify_cons by (done || reflexivity).
    rewrite (classify_cons _ v _ None) by done.
    rewrite positionals_parser. cbn -[parse_loop convert_defaults default_ns].
    erewrite parse_loop_positionals; [| reflexivity | reflexivity | take_input | simpl; lia].
    simpl. unfold take_action. simpl. rewrite take_store_one by done. simpl. by rewrite Hi. }
  split; [done|]. unfold main. by rewrite E.
Qed.

(** C21. Without the video path [parse_args] stops with
    [the following arguments are required: input_video_path], and the
    program exits with status 2 before it opens any video. *)
Theorem parse_args_missing_path {F} n fuel (os : Os F) :
  parse_args parser_arguments ["--frame_rate"; py_str_int n] = PErr (ErrRequired ["input_video_path"]) /\
  parse_args parser_arguments [] = PErr (ErrRequired ["input_video_path"]) /\
  main ["--frame_rate"; py_str_int n] fuel os = (Raised (SystemExit 2), init_state os).
Proof.
  assert (E : parse_args parser_arguments ["--frame_rate"; py_str_int n] = PErr (ErrRequired ["input_video_path"])).
  { unfold parse_args. erewrite classify_cons by (done || reflexivity).
    rewrite (classify_cons _ (py_str_int n) _ None) by (apply parse_optional_py_str_int || apply py_str_int_not_sep).
    rewrite positionals_parser. cbn -[parse_loop py_str_int convert_defaults default_ns].
    erewrite parse_loop_optional by take_rate.
    erewrite parse_loop_last by reflexivity.
    simpl. by rewrite convert_defaults_parser. }
  split; [done|split; [reflexivity|]]. unfold main. by rewrite E.
Qed.

(** C22. The whole program is [parse_args] followed by the script:
    run as [python getting_images_from_video.py p] it runs the script
    with the defaults, and with [--frame_rate <str(n)>] (before or after
    the path) with [frame_rate = n]. *)
Theorem main_runs_script {F} p n fuel (os : Os F) :
  dash_first p = false ->
  main [p] fuel os = run_script (mkConfig p 30 "output/frames/") fuel os /\
  main [p; "--frame_rate"; py_str_int n] fuel os = run_script (mkConfig p n "output/frames/") fuel os /\
  main ["--frame_rate"; py_str_int n; p] fuel os = run_script (mkConfig p n "output/frames/") fuel os.
Proof.
  intros Hp. destruct (config_of_parsed p (VInt n)) as (Hc1 & Hc2 & Hc3).
  unfold main. rewrite parse_path_only, parse_rate_after, parse_rate_before by done.
  by rewrite Hc1, Hc2, Hc3.
Qed.

Lemma parser_dests_nodup : NoDup (arg_dest <$> parser_arguments).
Proof. apply (bool_decide_eq_true_1 _). vm_compute. reflexivity. Qed.

(** C23. Whatever the command line, a namespace that [parse_args]
    returns holds every argument of lines 5-9 with a value of its type
    ([str] for the path and the folder, [int] for the rate) or the
    empty list of a lone [--]; so [config_of_ns] fails, and the script
    meets a [TypeError], only when the path or the rate is that empty
    list. *)
Theorem parse_args_types argv ns :
  parse_args parser_arguments argv = POk ns ->
  (forall a, a ∈ parser_arguments -> exists v, ns !! arg_dest a = Some v /\
      (has_type (arg_type a) v = true \/ v = VEmptyList)) /\
  (config_of_ns ns = None ->
   ns !! "input_video_path" = Some VEmptyList \/ ns !! "frame_rate" = Some VEmptyList).
Proof.
  intros Hp. pose proof (parse_args_ns_ok parser_arguments parser_dests_nodup argv ns Hp) as Hok.
  assert (Ht : forall a, a ∈ parser_arguments -> exists v, ns !! arg_dest a = Some v /\
             (has_type (arg_type a) v = true \/ v = VEmptyList)).
  { intros a Ha. destruct (Hok a Ha) as (v & Hv & Hvt). exists v. split; [done|].
    destruct Hvt as [?|[?|[Hf ->]]]; [by left|by right|].
    unfold parser_arguments in Ha.
    repeat (apply elem_of_cons in Ha as [->|Ha]; [first [by left|by destruct Hf]|]).
    by apply elem_of_nil in Ha. }
  split; [done|].
  destruct (Ht input_arg ltac:(by left)) as (v1 & E1 & T1).
  destruct (Ht frame_rate_arg ltac:(right; by left)) as (v2 & E2 & T2).
  destruct (Ht folder_arg ltac:(right; right; by left)) as (v3 & E3 & _).
  unfold config_of_ns. simpl in E1, E2, E3. rewrite E1, E2, E3.
  destruct v1, v2; simpl in T1, T2; destruct T1, T2; try discriminate; subst; auto.
Qed.

(** C24. For every video path [p], a value [--] given with [=] is not a
    value: [--frame_rate=--] makes the rate the empty list and the
    program raises [TypeError] before it opens the video, the world
    unchanged; [--output_frames_folder_path=--] makes the folder the
    empty list, which the f-string of line 19 prints as [[]], so the
    script runs with the folder ["[]"] and writes [[]frame1.jpg], ...
    in the working directory. *)
Theorem main_separator_values {F} p fuel (os : Os F) :
  dash_first p = false ->
  main [p; "--frame_rate=--"] fuel os = (Raised TypeError, init_state os) /\
  main [p; "--output_frames_folder_path=--"] fuel os = run_script (mkConfig p 30 "[]") fuel os.
Proof.
  intros Hp. unfold main.
  change "--frame_rate=--" with ("--frame_rate" ++ "=--").
  change "--output_frames_folder_path=--" with ("--output_frames_folder_path" ++ "=--").
  rewrite (parse_option_sep p Hp "--frame_rate" frame_rate_arg),
    (parse_option_sep p Hp "--output_frames_folder_path" folder_arg) by set_solver.
  unfold config_of_ns. simpl arg_dest. split; by simplify_map_eq.
Qed.

End Argparse.
