(* ===== verification/Scenarios.v ===== *)
(** * The scenarios of the specification, run through the model

    Concrete runs of [run_script] and [main] on a small world (frames
    are numbers, the video [match.mp4] decodes to the frames [1 .. T],
    the folder [output/frames/] exists), evaluated by [vm_compute]: the
    scenarios A-D of the specification and three command lines; and,
    for each theorem with hypotheses, a closed instance at such a world
    or on the camera [endless_camera]. *)

From Stdlib Require Import Ascii String.
From S2P Require Import Prelude PyStr FileSystem VideoCapture Sampler Argparse.
Import PyStr FileSystem VideoCapture SamplerLoop Argparse SamplerSpec.

Open Scope Z_scope.
Open Scope string_scope.

Module Scenarios.

Definition video_path : string := "match.mp4".
Definition out_dir : string := "output/frames/".

(** A world in which [match.mp4] holds [T] frames and the default output
    folder exists. *)
Definition world (T : nat) : Os nat :=
  mkOs ∅ {[ out_dir ]} {[ video_path := seq 1 T ]} [].

(** A world where the output folder is missing. *)
Definition world_nodir (T : nat) : Os nat :=
  mkOs ∅ ∅ {[ video_path := seq 1 T ]} [].

(** [python getting_images_from_video.py match.mp4 --frame_rate <rate>]. *)
Definition cli_args (rate : Z) : Config := mkConfig video_path rate out_dir.

(** A camera that delivers the frame [t] at every instant [t]. *)
Definition endless_camera : Camera nat := mkCamera Some 0.

Definition camera_start : State (Camera nat) nat :=
  mkState (world 0) endless_camera true (Some 0%nat) 0.

(** The state after one iteration on the camera. *)
Definition camera_step1 : State (Camera nat) nat := (loop_body (cli_args 1) camera_start).2.

(** The world after running the whole program on [argv]. *)
Definition main_world (argv : list string) (fuel : nat) (os : Os nat) : Os nat :=
  st_os (main argv fuel os).2.

(** Scenario A: 95 frames, rate 30: [frame1.jpg] to [frame3.jpg] hold
    frames 30, 60 and 90; no progress line; [Finally all 3 frames stored!]. *)
Example scenario_A :
  (run_script (cli_args 30) 95 (world 95)).1 = Ok tt /\
  run_files (cli_args 30) 95 (world 95) =
    {[ "output/frames/frame1.jpg" := 30%nat;
       "output/frames/frame2.jpg" := 60%nat;
       "output/frames/frame3.jpg" := 90%nat ]} /\
  run_stdout (cli_args 30) 95 (world 95) = ["Finally all 3 frames stored!"].
Proof. vm_compute. repeat split; reflexivity. Qed.

(** Scenario B: 3000 frames, rate 10: 300 files, and a progress
    line at frames 1000, 2000 and 3000 (three lines, not one). *)
Example scenario_B :
  size (run_files (cli_args 10) 3000 (world 3000)) = 300%nat /\
  run_stdout (cli_args 10) 3000 (world 3000) =
    ["100 frames stored!"; "200 frames stored!"; "300 frames stored!";
     "Finally all 300 frames stored!"].
Proof. vm_compute. split; reflexivity. Qed.

(** Scenario C: no frame can be read: nothing is written and the final
    line reports 0. *)
Example scenario_C :
  run_files (cli_args 30) 0 (world 0) = ∅ /\
  run_stdout (cli_args 30) 0 (world 0) = ["Finally all 0 frames stored!"].
Proof. vm_compute. split; reflexivity. Qed.

(** Scenario D: rate 1 saves every frame under its own number. *)
Example scenario_D :
  run_files (cli_args 1) 4 (world 4) =
    {[ "output/frames/frame1.jpg" := 1%nat; "output/frames/frame2.jpg" := 2%nat;
       "output/frames/frame3.jpg" := 3%nat; "output/frames/frame4.jpg" := 4%nat ]}.
Proof. vm_compute. reflexivity. Qed.

(** [--frame_rate=--] makes [args.frame_rate] the empty list: the
    [--] that [_get_values] removes was the option's only string.  The
    script then raises [TypeError] at its first [%], with nothing
    written. *)
Example scenario_rate_empty_list :
  parse_args parser_arguments ["match.mp4"; "--frame_rate=--"] =
    POk (<["frame_rate" := VEmptyList]> (<["input_video_path" := VStr "match.mp4"]>
           (default_ns parser_arguments))) /\
  (main ["match.mp4"; "--frame_rate=--"] 95 (world 95)).1 = Raised TypeError /\
  os_files (main_world ["match.mp4"; "--frame_rate=--"] 95 (world 95)) = ∅.
Proof. vm_compute. repeat split; reflexivity. Qed.

(** [--output_frames_folder_path=--] makes the folder the empty
    list, which the f-string of line 19 prints as [[]]: the frames go to
    [[]frame1.jpg], [[]frame2.jpg], ... in the working directory. *)
Example scenario_folder_empty_list :
  os_files (main_world ["match.mp4"; "--output_frames_folder_path=--"] 95 (world 95)) =
    {[ "[]frame1.jpg" := 30%nat; "[]frame2.jpg" := 60%nat; "[]frame3.jpg" := 90%nat ]}.
Proof. vm_compute. reflexivity. Qed.

(** [--frame_rate -30] is accepted (a negative number is not an
    option): frames 30, 60 and 90 are saved as [frame-1.jpg],
    [frame-2.jpg], [frame-3.jpg], and the final line reports
    [95 // -30 = -4]. *)
Example scenario_negative_rate_cli :
  os_files (main_world ["match.mp4"; "--frame_rate"; "-30"] 95 (world 95)) =
    {[ "output/frames/frame-1.jpg" := 30%nat; "output/frames/frame-2.jpg" := 60%nat;
       "output/frames/frame-3.jpg" := 90%nat ]} /\
  stdout_of (os_log (main_world ["match.mp4"; "--frame_rate"; "-30"] 95 (world 95))) =
    ["Finally all -4 frames stored!"].
Proof. vm_compute. split; reflexivity. Qed.

(** ** Instances of the theorems at concrete worlds *)

(** Discharge a closed hypothesis by evaluation. *)
Ltac eval_closed := vm_compute; first [reflexivity | lia | discriminate].

Lemma script_refines_spec_witness :
  frame_rate (cli_args 30) <> 0 /\
  (length (vc_open (os_videos (world 95)) (input_video_path (cli_args 30))) <= 95)%nat /\
  run_script (cli_args 30) 95 (world 95) =
    let l := vc_open (os_videos (world 95)) (input_video_path (cli_args 30)) in
    (Ok tt, mkState (py_print (final_line (Z.of_nat (length l) / frame_rate (cli_args 30)))
                              (spec_world (cli_args 30) l (world 95)))
                    [] false None (Z.of_nat (length l))).
Proof.
  split; [discriminate|split; [eval_closed|]].
  apply script_refines_spec; [discriminate|eval_closed].
Defined.

Lemma script_files_positive_rate_witness :
  0 < frame_rate (cli_args 30) /\ output_writable (cli_args 30) (world 95) = true /\
  (length (vc_open (os_videos (world 95)) (input_video_path (cli_args 30))) <= 95)%nat /\
  let l := vc_open (os_videos (world 95)) (input_video_path (cli_args 30)) in
  run_writes (cli_args 30) 95 (world 95) =
    (writes_of (os_log (world 95)) ++
     map (fun k => (save_path (output_frames_folder_path (cli_args 30)) k, true))
         (seqZ 1 (Z.of_nat (length l) / frame_rate (cli_args 30))))%list /\
  (forall k, 1 <= k <= Z.of_nat (length l) / frame_rate (cli_args 30) ->
     run_files (cli_args 30) 95 (world 95) !! save_path (output_frames_folder_path (cli_args 30)) k =
       l !! Z.to_nat (k * frame_rate (cli_args 30) - 1)).
Proof.
  split; [eval_closed|split; [eval_closed|split; [eval_closed|]]].
  apply script_files_positive_rate; eval_closed.
Defined.

Lemma final_report_matches_files_witness :
  0 < frame_rate (cli_args 30) /\ output_writable (cli_args 30) (world 95) = true /\
  os_files (world 95) = ∅ /\
  (length (vc_open (os_videos (world 95)) (input_video_path (cli_args 30))) <= 95)%nat /\
  last (run_stdout (cli_args 30) 95 (world 95)) =
    Some (final_line (Z.of_nat (size (run_files (cli_args 30) 95 (world 95))))) /\
  size (run_files (cli_args 30) 95 (world 95)) =
    Z.to_nat (Z.of_nat (length (vc_open (os_videos (world 95)) (input_video_path (cli_args 30))))
              / frame_rate (cli_args 30)).
Proof.
  split; [eval_closed|split; [eval_closed|split; [reflexivity|split; [eval_closed|]]]].
  apply final_report_matches_files; [eval_closed|eval_closed|reflexivity|eval_closed].
Defined.

Lemma script_stdout_positive_rate_witness :
  0 < frame_rate (cli_args 10) /\
  (length (vc_open (os_videos (world 1000)) (input_video_path (cli_args 10))) <= 1000)%nat /\
  let T := Z.of_nat (length (vc_open (os_videos (world 1000)) (input_video_path (cli_args 10)))) in
  run_stdout (cli_args 10) 1000 (world 1000) =
    (stdout_of (os_log (world 1000)) ++
     map (fun m => progress_line (100 * m)) (seqZ 1 (T / (100 * frame_rate (cli_args 10)))) ++
     [final_line (T / frame_rate (cli_args 10))])%list.
Proof.
  split; [eval_closed|split; [eval_closed|]].
  apply script_stdout_positive_rate; eval_closed.
Defined.

Lemma script_zero_rate_witness :
  frame_rate (cli_args 0) = 0 /\ (0 < 1)%nat /\
  (run_script (cli_args 0) 1 (world 95)).1 = Raised ZeroDivisionError /\
  run_files (cli_args 0) 1 (world 95) = os_files (world 95) /\
  run_stdout (cli_args 0) 1 (world 95) = stdout_of (os_log (world 95)) /\
  run_writes (cli_args 0) 1 (world 95) = writes_of (os_log (world 95)).
Proof.
  split; [reflexivity|split; [lia|]].
  apply script_zero_rate; [reflexivity|lia].
Defined.

Lemma script_missing_folder_witness :
  frame_rate (cli_args 30) <> 0 /\ output_writable (cli_args 30) (world_nodir 95) = false /\
  (length (vc_open (os_videos (world_nodir 95)) (input_video_path (cli_args 30))) <= 95)%nat /\
  let l := vc_open (os_videos (world_nodir 95)) (input_video_path (cli_args 30)) in
  run_files (cli_args 30) 95 (world_nodir 95) = os_files (world_nodir 95) /\
  run_stdout (cli_args 30) 95 (world_nodir 95) =
    (stdout_of (os_log (world_nodir 95)) ++
     stdout_of (spec_log (cli_args 30) true (Z.of_nat (length l))) ++
     [final_line (Z.of_nat (length l) / frame_rate (cli_args 30))])%list /\
  (forall p b, (p, b) ∈ run_writes (cli_args 30) 95 (world_nodir 95) ->
     (p, b) ∈ writes_of (os_log (world_nodir 95)) \/ b = false).
Proof.
  split; [eval_closed|split; [eval_closed|split; [eval_closed|]]].
  apply script_missing_folder; eval_closed.
Defined.

Lemma script_negative_rate_witness :
  frame_rate (cli_args (-30)) < 0 /\
  (length (vc_open (os_videos (world 95)) (input_video_path (cli_args (-30)))) <= 95)%nat /\
  let T := Z.of_nat (length (vc_open (os_videos (world 95)) (input_video_path (cli_args (-30))))) in
  let writes := map (fun m => (save_path (output_frames_folder_path (cli_args (-30))) (- m),
                               output_writable (cli_args (-30)) (world 95)))
                    (seqZ 1 (T / - frame_rate (cli_args (-30)))) in
  run_writes (cli_args (-30)) 95 (world 95) = (writes_of (os_log (world 95)) ++ writes)%list /\
  last (run_stdout (cli_args (-30)) 95 (world 95)) = Some (final_line (T / frame_rate (cli_args (-30)))) /\
  (T mod frame_rate (cli_args (-30)) <> 0 ->
   T / frame_rate (cli_args (-30)) = - Z.of_nat (length writes) - 1).
Proof.
  split; [eval_closed|split; [eval_closed|]].
  apply script_negative_rate; eval_closed.
Defined.

Lemma run_loop_terminates_witness :
  (vc_remaining (st_cap (mkState (world 3) [2; 3]%nat true (Some 1%nat) 1)) < 3)%nat /\
  (run_loop (cli_args 1) 3 (mkState (world 3) [2; 3]%nat true (Some 1%nat) 1)).1 <> OutOfFuel.
Proof.
  split; [eval_closed|].
  apply run_loop_terminates. eval_closed.
Defined.

Lemma reachable_state_after_witness :
  frame_rate (cli_args 1) <> 0 /\
  reachable (cli_args 1) (mkState (world 3) [2; 3]%nat true (Some 1%nat) 0)
    (state_after (cli_args 1) (world 3) 1%nat [2; 3]%nat 0 2).
Proof.
  split; [discriminate|].
  apply (reachable_state_after (cli_args 1) ltac:(discriminate)).
  exists 2%nat. split; [eval_closed|reflexivity].
Defined.

Lemma run_loop_no_raise_witness :
  frame_rate (cli_args 1) <> 0 /\ read_consistent camera_start = true /\
  (run_loop (cli_args 1) 5 camera_start).1 <> Raised ZeroDivisionError.
Proof.
  split; [discriminate|split; [reflexivity|]].
  apply run_loop_no_raise; [discriminate|reflexivity].
Defined.

Lemma reachable_any_capture_witness :
  frame_rate (cli_args 1) <> 0 /\
  reachable (cli_args 1) camera_start camera_step1 /\
  exists k, (k <= S (length (delivered endless_camera k)))%nat /\
    st_os camera_step1 = spec_world (cli_args 1) (take k (0%nat :: delivered endless_camera k)) (world 0) /\
    st_cap camera_step1 = nth_cap endless_camera k /\
    st_img camera_step1 = (0%nat :: delivered endless_camera k) !! k /\
    st_frame_number camera_step1 = Z.of_nat k.
Proof.
  assert (Hr : reachable (cli_args 1) camera_start camera_step1).
  { eapply reach_step; [constructor|]. constructor; [reflexivity|]. vm_compute. reflexivity. }
  split; [discriminate|split; [exact Hr|]].
  apply (reachable_any_capture (cli_args 1) (world 0) endless_camera 0%nat camera_step1);
    [discriminate|exact Hr].
Defined.

Lemma camera_saves_every_index_witness :
  0 < frame_rate (cli_args 3) /\ output_writable (cli_args 3) (world 0) = true /\
  (forall t, (cam_time endless_camera <= t)%nat -> is_Some (cam_frames endless_camera t)) /\
  exists st, reachable (cli_args 3)
      (mkState (world 0) (vc_read endless_camera).2 (vc_read endless_camera).1.1 (vc_read endless_camera).1.2 0) st /\
    st_success st = true /\
    os_files (st_os st) !! save_path out_dir 2 =
      cam_frames endless_camera (cam_time endless_camera + Z.to_nat (2 * frame_rate (cli_args 3)) - 1).
Proof.
  assert (Hc : forall t, (cam_time endless_camera <= t)%nat -> is_Some (cam_frames endless_camera t)).
  { intros t _. simpl. eexists. reflexivity. }
  split; [vm_compute; reflexivity|split; [vm_compute; reflexivity|split; [exact Hc|]]].
  apply (camera_saves_every_index (cli_args 3) endless_camera (world 0) 2);
    [vm_compute; reflexivity|vm_compute; reflexivity|exact Hc|lia].
Defined.

Lemma parse_args_defaults_witness :
  dash_first video_path = false /\
  exists ns, parse_args parser_arguments [video_path] = POk ns /\
             config_of_ns ns = Some (mkConfig video_path 30 "output/frames/").
Proof. split; [reflexivity|]. apply parse_args_defaults. reflexivity. Defined.

Lemma parse_args_frame_rate_witness :
  dash_first video_path = false /\
  (exists ns, parse_args parser_arguments [video_path; "--frame_rate"; py_str_int (-5)] = POk ns /\
              config_of_ns ns = Some (mkConfig video_path (-5) "output/frames/")) /\
  (exists ns, parse_args parser_arguments ["--frame_rate"; py_str_int (-5); video_path] = POk ns /\
              config_of_ns ns = Some (mkConfig video_path (-5) "output/frames/")).
Proof. split; [reflexivity|]. apply parse_args_frame_rate. reflexivity. Defined.

Lemma parse_args_invalid_rate_witness :
  dash_first video_path = false /\ dash_first "2.5" = false /\ py_int "2.5" = None /\
  parse_args parser_arguments [video_path; "--frame_rate"; "2.5"] =
    PErr (ErrInvalidValue frame_rate_arg "2.5") /\
  main [video_path; "--frame_rate"; "2.5"] 95 (world 95) = (Raised (SystemExit 2), init_state (world 95)).
Proof.
  split; [reflexivity|split; [reflexivity|split; [vm_compute; reflexivity|]]].
  apply parse_args_invalid_rate; [reflexivity|reflexivity|vm_compute; reflexivity].
Defined.

Lemma main_runs_script_witness :
  dash_first video_path = false /\
  main [video_path] 95 (world 95) = run_script (mkConfig video_path 30 "output/frames/") 95 (world 95) /\
  main [video_path; "--frame_rate"; py_str_int 10] 95 (world 95) =
    run_script (mkConfig video_path 10 "output/frames/") 95 (world 95) /\
  main ["--frame_rate"; py_str_int 10; video_path] 95 (world 95) =
    run_script (mkConfig video_path 10 "output/frames/") 95 (world 95).
Proof. split; [reflexivity|]. apply main_runs_script. reflexivity. Defined.

Lemma parse_args_types_witness :
  let ns := <["frame_rate" := VEmptyList]> (<["input_video_path" := VStr video_path]>
              (default_ns parser_arguments)) in
  parse_args parser_arguments [video_path; "--frame_rate=--"] = POk ns /\
  (forall a, a ∈ parser_arguments -> exists v, ns !! arg_dest a = Some v /\
      (has_type (arg_type a) v = true \/ v = VEmptyList)) /\
  (config_of_ns ns = None ->
   ns !! "input_video_path" = Some VEmptyList \/ ns !! "frame_rate" = Some VEmptyList).
Proof.
  intros ns. assert (E : parse_args parser_arguments [video_path; "--frame_rate=--"] = POk ns)
    by (vm_compute; reflexivity).
  split; [exact E|]. exact (parse_args_types _ _ E).
Defined.

Lemma main_separator_values_witness :
  dash_first video_path = false /\
  main [video_path; "--frame_rate=--"] 95 (world 95) = (Raised TypeError, init_state (world 95)) /\
  main [video_path; "--output_frames_folder_path=--"] 95 (world 95) =
    run_script (mkConfig video_path 30 "[]") 95 (world 95).
Proof. split; [reflexivity|]. apply main_separator_values. reflexivity. Defined.

End Scenarios.
